(** * Digital Factory SDK (TypeScript demo): cluster monitor and OAuth2 sign-in

    A shallow embedding of [src/typescript/src/monitor-printers.ts],
    [src/typescript/src/digital-factory.ts] and the interactive demo
    ([src/typescript/src/main.ts]), with the properties of the
    specification proved over it.

    Conventions of the embedding:
    - a JavaScript [number] that only ever holds an integer is a [Z];
    - a JavaScript [string] is a [string]; [null]/[undefined] on a field
      typed [string] is [None];
    - a [Set<string>] is the list of its elements in insertion order
      (iteration order of a JavaScript [Set]), without duplicates;
    - functions of the host platform (time, hashing, collation, JSON,
      the network, the file system) are variables of the enclosing
      section or explicit inputs of the function that calls them. *)

From stdpp Require Import base list strings gmap pretty.
From Stdlib Require Import ZArith Lia Ascii.

Local Open Scope Z_scope.

(** The outcome of evaluating an awaited call: a value, or a thrown error
    (a rejected promise). *)
Inductive completion (A : Type) : Type :=
| Normal (a : A)
| Throw (e : string).
Arguments Normal {A} a.
Arguments Throw {A} e.

(** The line feed, ['\n']. *)
Definition LF : string := String (ascii_of_nat 10) EmptyString.

(** ** [Set<string>] of the JavaScript runtime *)
Module JsSet.

(** [s.has(x)] *)
Definition has (s : list string) (x : string) : bool := bool_decide (x ∈ s).

(** [s.add(x)]: a new element goes last, a known one changes nothing. *)
Definition add (s : list string) (x : string) : list string :=
  if has s x then s else s ++ [x].

(** [new Set<string>(iterable)] *)
Definition new (iterable : list string) : list string := foldl add [] iterable.

(** [s.size] *)
Definition size (s : list string) : Z := Z.of_nat (length s).

(** [[...s]] *)
Definition spread (s : list string) : list string := s.

End JsSet.

(** ** The cluster monitor: [src/typescript/src/monitor-printers.ts] *)
Module Monitor.

(** The used fields from the Connect API cluster response. *)
Record ClusterResponse := {
  cluster_id : string;
  is_online : bool;
}.

(** The comparison between two lists of clusters. *)
Record Comparison := {
  dateTime : string;
  appeared : list string;
  gone : list string;
  onlineCount : Z;
  offlineCount : Z;
}.

(** The options that may be given to the script; [None] is an omitted
    option. *)
Record MonitorClustersOptions := {
  comparisonFile : option string;
  statusDir : option string;
  waitMS : option Z;
}.

(** What [getPreviousClusterStatus] hands to the loop as [previous]: its
    declared type is [ClusterResponse[] | null], and [lastFile && ...]
    yields [undefined] when there is no last file. *)
Inductive snapshot :=
| Null
| Undefined
| Clusters (clusters : list ClusterResponse).

(** JavaScript truthiness of a [previous] value ([if (previous)]): an
    array, even an empty one, is truthy. *)
Definition truthy (v : snapshot) : bool :=
  match v with
  | Null | Undefined => false
  | Clusters _ => true
  end.

(** The file system as the monitor uses it: by path, the listing of a
    directory in the order [readdir] returns it, and the contents of a
    file. *)
Record FileSystem := {
  dirs : gmap string (list string);
  files : gmap string string;
}.

(** [existsSync(path)] *)
Definition existsSync (fs : FileSystem) (path : string) : bool :=
  bool_decide (is_Some (dirs fs !! path) ∨ is_Some (files fs !! path)).

(** [readdir(path)]: rejects when [path] is not a directory. *)
Definition readdir (fs : FileSystem) (path : string) : completion (list string) :=
  match dirs fs !! path with
  | Some names => Normal names
  | None => Throw "ENOTDIR"
  end.

(** [readFile(path, 'utf-8')]: rejects when there is no such file. *)
Definition readFile (fs : FileSystem) (path : string) : completion string :=
  match files fs !! path with
  | Some data => Normal data
  | None => Throw "ENOENT"
  end.

(** [s.endsWith(suffix)] *)
Definition endsWith (s suffix : string) : bool :=
  let n := String.length s in
  let m := String.length suffix in
  if (m <=? n)%nat then String.eqb (String.substring (n - m) m s) suffix else false.

(** [s.replace(/:/g, '-')] *)
Fixpoint replace_colons (s : string) : string :=
  match s with
  | EmptyString => EmptyString
  | String c s' =>
      String (if Ascii.eqb c ":"%char then "-"%char else c) (replace_colons s')
  end.

(** [Array.prototype.sort(comparefn)]: a stable sort; [x] goes before [y]
    when [comparefn(x, y) <= 0] and [x] came first. *)
Fixpoint sort_insert {A} (comparefn : A → A → Z) (x : A) (l : list A) : list A :=
  match l with
  | [] => [x]
  | y :: l' =>
      if comparefn x y <=? 0 then x :: l else y :: sort_insert comparefn x l'
  end.

Fixpoint sort {A} (comparefn : A → A → Z) (l : list A) : list A :=
  match l with
  | [] => []
  | x :: l' => sort_insert comparefn x (sort comparefn l')
  end.

(** The events of a run of the monitor that the outside world can see. *)
Inductive event :=
| ProcessOnSigint
| SignIn
| Print (args : list string)
| CreateWriteStream (path : string)
| GetClusters
| WriteFile (path data : string) (ok : bool)
| StreamWrite (chunk : string)
| SetTimeout (ms : Z)
| StreamEnd
| ConsoleError (error : string)
| ProcessExit (code : Z)
| UncaughtException (error : string).

(** The points at which the loop waits for the outside world: the [await]
    of [getClusters], of [writeFile] and of the timer. *)
Definition is_await (e : event) : bool :=
  match e with
  | GetClusters | WriteFile _ _ _ | SetTimeout _ => true
  | _ => false
  end.

(** The events up to the [await] number [n], counted from 0, if there are
    that many: what has happened when the process is ended during it. *)
Fixpoint until_await (n : nat) (events : list event) : option (list event) :=
  match events with
  | [] => None
  | e :: events' =>
      if is_await e then
        match n with
        | O => Some [e]
        | S n' => cons e <$> until_await n' events'
        end
      else cons e <$> until_await n events'
  end.

(** What the outside world answers during one pass through the loop body. *)
Record Tick := {
  getClusters_result : completion (option (list ClusterResponse));
  new_Date : Z;
  writeFile_result : completion unit;
  sigint_before_wait : bool;
  sigint_during_wait : bool;
}.

(** SIGINT was delivered at some point of this pass. *)
Definition sigint (t : Tick) : bool :=
  sigint_before_wait t || sigint_during_wait t.

(** The state of a run once the model has used up the answers it was given. *)
Inductive status :=
| Running
| Resolved
| Rejected (e : string)
| Exited (code : Z).

Section WithHost.

(** [Date.prototype.toISOString], a date being its epoch milliseconds. *)
Variable toISOString : Z → string.
(** [String.prototype.localeCompare] *)
Variable localeCompare : string → string → Z.
(** [JSON.parse] on a snapshot file, at its declared type. *)
Variable JSON_parse : string → completion snapshot.
(** [mkdir(path, { recursive: true })]: the directory listings afterwards,
    with the new directory, its entry in the listing of its parent and the
    ancestors that were missing, and whether the call succeeded; it rejects
    for the empty path ([ENOENT]), below a regular file ([ENOTDIR]), where
    writing is not permitted ([EACCES]). It changes no file. *)
Variable mkdir : FileSystem → string → gmap string (list string) * completion unit.
(** [prettyJSON], that is [JSON.stringify(_, null, 4)]. *)
Variable prettyJSON_clusters : list ClusterResponse → string.
Variable prettyJSON_comparison : Comparison → string.

(** Gets the previous cluster status from the status log directory. Ensures
    that the directory actually exists. A name that ends with ['.json'] is
    not empty, so [lastFile] is truthy exactly when there is one. *)
Definition getPreviousClusterStatus (fs : FileSystem) (statusDir : string)
  : FileSystem * completion snapshot :=
  if negb (existsSync fs statusDir) then
    let '(listings, made) := mkdir fs statusDir in
    ({| dirs := listings; files := files fs |},
     match made with
     | Normal _ => Normal Null
     | Throw e => Throw e
     end)
  else
    match readdir fs statusDir with
    | Throw e => (fs, Throw e)
    | Normal existingFiles =>
        let lastFile :=
          head (sort (λ a b, localeCompare b a)
                  (filter (λ file, endsWith file ".json" = true) existingFiles)) in
        match lastFile with
        | None => (fs, Normal Undefined)
        | Some lastFile =>
            match readFile fs (statusDir +:+ "/" +:+ lastFile) with
            | Throw e => (fs, Throw e)
            | Normal data => (fs, JSON_parse data)
            end
        end
    end.

Definition getOnlineClusterIds (clusters : list ClusterResponse) : list string :=
  JsSet.new (cluster_id <$> filter (λ cluster, is_online cluster = true) clusters).

(** Compares two lists of cluster statuses. *)
Definition compareResults (previous current : list ClusterResponse) (dateTime : Z)
  : Comparison :=
  let previousOnlineIds := getOnlineClusterIds previous in
  let currentOnlineIds := getOnlineClusterIds current in
  {| dateTime := toISOString dateTime;
     appeared := filter (λ id, JsSet.has previousOnlineIds id = false)
                   (JsSet.spread currentOnlineIds);
     gone := filter (λ id, JsSet.has currentOnlineIds id = false)
               (JsSet.spread previousOnlineIds);
     onlineCount := JsSet.size currentOnlineIds;
     offlineCount := Z.of_nat (length current) - JsSet.size currentOnlineIds |}.

(** Creates a CSV line from the given comparison. [join] writes an array as
    its elements separated by commas and a number in decimal. *)
Definition csvLine (comparison : Comparison) (separator : string) : string :=
  String.concat separator
    [ dateTime comparison;
      String.concat "," (appeared comparison);
      String.concat "," (gone comparison);
      pretty (onlineCount comparison);
      pretty (offlineCount comparison) ].

(** Returns a promise that waits for the given amount of milliseconds, with
    abort support. A listener added to a signal that has already aborted is
    never called, so the wait then lasts the full time. *)
Definition awaitAsync (waitMS : Z) (t : Tick) : list event :=
  SetTimeout waitMS ::
  (if negb (sigint_before_wait t) && sigint_during_wait t
   then [Print ["Aborting the monitoring..."]]
   else []).

(** The [try] block of the loop body, from [demo.getClusters()] on. Returns
    the events, the value of [previous] afterwards, and whether the block
    was left by [continue]. *)
Definition tryBlock (statusDir : string) (previous : snapshot) (t : Tick)
  : list event * snapshot * bool :=
  match getClusters_result t with
  | Throw ex =>
      ([GetClusters; Print ["An error occured while fetching cluster data: "; ex]],
       previous, false)
  | Normal None => ([GetClusters], previous, true)
  | Normal (Some clusters) =>
      let dateTime := new_Date t in
      let logFile :=
        statusDir +:+ "/" +:+ replace_colons (toISOString dateTime) +:+ "-clusters.json" in
      match writeFile_result t with
      | Throw ex =>
          ([GetClusters; WriteFile logFile (prettyJSON_clusters clusters) false;
            Print ["An error occured while fetching cluster data: "; ex]],
           previous, false)
      | Normal _ =>
          ([GetClusters; WriteFile logFile (prettyJSON_clusters clusters) true;
            Print ["Found " +:+ pretty (length clusters) +:+ " clusters" +:+ LF]]
           ++ match previous with
              | Clusters previous =>
                  let comparison := compareResults previous clusters dateTime in
                  [StreamWrite (csvLine comparison ";" +:+ LF);
                   Print ["Comparison resulted in " +:+ prettyJSON_comparison comparison +:+ LF]]
              | Null | Undefined => []
              end,
           Clusters clusters, false)
      end
  end.

(** One pass through the body of [while (!abort.signal.aborted)]:
    [continue] skips the wait. *)
Definition iteration (statusDir : string) (waitMS : Z) (previous : snapshot) (t : Tick)
  : list event * snapshot :=
  let '(events, previous', continued) := tryBlock statusDir previous t in
  (Print ["Retrieving clusters..."] :: events
     ++ (if continued then [] else awaitAsync waitMS t),
   previous').

(** The loop, run against the answers [ticks]; the last component tells
    whether the loop was left (the signal had aborted) or is still running
    when the answers are used up. *)
Fixpoint loop (statusDir : string) (waitMS : Z)
  (aborted : bool) (previous : snapshot) (ticks : list Tick)
  : list event * snapshot * bool :=
  if aborted then ([], previous, true)
  else
    match ticks with
    | [] => ([], previous, false)
    | t :: ticks' =>
        let '(events, previous') := iteration statusDir waitMS previous t in
        let '(events', previous'', exited) :=
          loop statusDir waitMS (sigint t) previous' ticks' in
        (events ++ events', previous'', exited)
    end.

(** What the outside world answers during a run of [monitorClusters].
    The stream of the comparison file emits an ['error'] event when the
    file cannot be opened or a chunk cannot be written; nothing listens for
    it, so that it ends the process as an uncaught exception, with code 1.
    It is emitted while the loop waits: [stream_error] gives the number of
    the [await] of the loop, counted from 0, during which it is, and the
    error. A file that cannot be opened is [(0, _)]: the first fetch. *)
Record World := {
  signIn_result : completion unit;
  fileSystem : FileSystem;
  sigint_before_loop : bool;
  ticks : list Tick;
  stream_error : option (nat * string);
}.

(** The events of the loop until the stream emits its error, if it does
    while the loop is at that [await]. *)
Definition stream_fails (w : World) (events : list event)
  : option (list event * string) :=
  '(n, error) ← stream_error w;
  before ← until_await n events;
  Some (before, error).

(** Gets all clusters from the API periodically, writing the response to a
    JSON file & the comparisons to a CSV file. *)
Definition monitorClusters (options : MonitorClustersOptions) (w : World)
  : list event * FileSystem * status :=
  let comparisonFile :=
    default "../cluster-monitoring-logs/cluster-monitoring.csv" (comparisonFile options) in
  let waitMS := default 60000 (waitMS options) in
  let statusDir := default "../cluster-monitoring-logs" (statusDir options) in
  match signIn_result w with
  | Throw e => ([ProcessOnSigint; SignIn], fileSystem w, Rejected e)
  | Normal _ =>
      let '(fs, previous) := getPreviousClusterStatus (fileSystem w) statusDir in
      match previous with
      | Throw e =>
          ([ProcessOnSigint; SignIn; Print ["Sign in completed." +:+ LF]],
           fs, Rejected e)
      | Normal previous =>
          let '(events, _, exited) :=
            loop statusDir waitMS (sigint_before_loop w) previous (ticks w) in
          match stream_fails w events with
          | Some (before, error) =>
              ([ProcessOnSigint; SignIn; Print ["Sign in completed." +:+ LF];
                CreateWriteStream comparisonFile]
               ++ before ++ [UncaughtException error],
               fs, Exited 1)
          | None =>
              ([ProcessOnSigint; SignIn; Print ["Sign in completed." +:+ LF];
                CreateWriteStream comparisonFile]
               ++ events ++ (if exited then [StreamEnd] else []),
               fs, if exited then Resolved else Running)
          end
      end
  end.

(** The script around [monitorClusters]:
    [monitorClusters().then(() => process.exit(0)).catch(... process.exit(1))]. *)
Definition script (options : MonitorClustersOptions) (w : World) : list event :=
  match monitorClusters options w with
  | (events, _, Resolved) => events ++ [ProcessExit 0]
  | (events, _, Rejected error) => events ++ [ConsoleError error; ProcessExit 1]
  | (events, _, _) => events
  end.

End WithHost.

(** A cluster ID is online in a list when some cluster of the list with
    that ID has [is_online] set. *)
Definition online (clusters : list ClusterResponse) (id : string) : Prop :=
  ∃ cluster, cluster ∈ clusters ∧ is_online cluster = true ∧ cluster_id cluster = id.

(** The distinct cluster IDs among the online entries of a list. *)
Definition onlineIdSet (clusters : list ClusterResponse) : gset string :=
  list_to_set (cluster_id <$> filter (λ cluster, is_online cluster = true) clusters).

(** The kinds of events that the overview counts: a JSON snapshot written,
    an attempt to write one, a CSV row appended, a sign-in, a fetch of the
    cluster list. *)
Definition is_snapshot (e : event) : bool :=
  match e with WriteFile _ _ true => true | _ => false end.
Definition is_writeFile (e : event) : bool :=
  match e with WriteFile _ _ _ => true | _ => false end.
Definition is_csvRow (e : event) : bool :=
  match e with StreamWrite _ => true | _ => false end.
Definition is_signIn (e : event) : bool :=
  match e with SignIn => true | _ => false end.
Definition is_fetch (e : event) : bool :=
  match e with GetClusters => true | _ => false end.

(** The comparison of two strings by their character codes: a comparator
    in the sense of [Array.prototype.sort]. *)
Definition compareCharCodes (a b : string) : Z :=
  match String.compare a b with
  | Eq => 0
  | Lt => -1
  | Gt => 1
  end.

(** How many events of a kind there are among some events. *)
Definition count (kind : event → bool) (events : list event) : nat :=
  length (filter (λ e, kind e = true) events).

End Monitor.

(** ** The cluster monitor before it caught errors inside its loop

    The third listing of [monitor-printers.ts] (its [monitorClusters] is at
    lines 339-379): one [try] around the whole loop, whose [catch] logs the
    error and exits, a [stop] flag instead of an abort signal, and a wait
    that cannot be cut short. The rest of the file is as above. *)
Module MonitorEarlier.

Import Monitor.

Section WithHost.

Variable toISOString : Z → string.
Variable localeCompare : string → string → Z.
Variable JSON_parse : string → completion snapshot.
Variable mkdir : FileSystem → string → gmap string (list string) * completion unit.
Variable prettyJSON_clusters : list ClusterResponse → string.
Variable prettyJSON_comparison : Comparison → string.

(** One pass through the body of [while (!stop)], and the value of
    [previous] after it or the error thrown in it. The answer of
    [getClusters] is used without a check. One that holds no cluster list
    is [null], or [undefined]: [prettyJSON] of it is handed to [writeFile]
    first, which writes the snapshot [null] (and rejects an [undefined]: a
    [writeFile_result] that throws), and then reading its [length] throws a
    [TypeError]. *)
Definition iteration (statusDir : string) (waitMS : Z) (previous : snapshot) (t : Tick)
  : list event * completion snapshot :=
  match getClusters_result t with
  | Throw ex => ([Print ["Retrieving clusters..."]; GetClusters], Throw ex)
  | Normal None =>
      let dateTime := new_Date t in
      let logFile :=
        statusDir +:+ "/" +:+ replace_colons (toISOString dateTime) +:+ "-clusters.json" in
      match writeFile_result t with
      | Throw ex =>
          ([Print ["Retrieving clusters..."]; GetClusters;
            WriteFile logFile "null" false],
           Throw ex)
      | Normal _ =>
          ([Print ["Retrieving clusters..."]; GetClusters;
            WriteFile logFile "null" true],
           Throw "TypeError: Cannot read properties of null (reading 'length')")
      end
  | Normal (Some clusters) =>
      let dateTime := new_Date t in
      let logFile :=
        statusDir +:+ "/" +:+ replace_colons (toISOString dateTime) +:+ "-clusters.json" in
      match writeFile_result t with
      | Throw ex =>
          ([Print ["Retrieving clusters..."]; GetClusters;
            WriteFile logFile (prettyJSON_clusters clusters) false],
           Throw ex)
      | Normal _ =>
          ([Print ["Retrieving clusters..."]; GetClusters;
            WriteFile logFile (prettyJSON_clusters clusters) true;
            Print ["Found " +:+ pretty (length clusters) +:+ " clusters" +:+ LF]]
           ++ match previous with
              | Clusters previous =>
                  let comparison :=
                    compareResults toISOString previous clusters dateTime in
                  [StreamWrite (csvLine comparison ";" +:+ LF);
                   Print ["Comparison resulted in "
                          +:+ prettyJSON_comparison comparison +:+ LF]]
              | Null | Undefined => []
              end
           ++ [SetTimeout waitMS],
           Normal (Clusters clusters))
      end
  end.

(** The loop inside its [try]: an error is logged by [console.error] and
    the process exits with code 1. *)
Fixpoint loop (statusDir : string) (waitMS : Z)
  (stop : bool) (previous : snapshot) (ticks : list Tick)
  : list event * status :=
  if stop then ([StreamEnd], Resolved)
  else
    match ticks with
    | [] => ([], Running)
    | t :: ticks' =>
        match iteration statusDir waitMS previous t with
        | (events, Throw e) => (events ++ [ConsoleError e; ProcessExit 1], Exited 1)
        | (events, Normal previous') =>
            let '(events', state) := loop statusDir waitMS (sigint t) previous' ticks' in
            (events ++ events', state)
        end
    end.

Definition monitorClusters (options : MonitorClustersOptions) (w : World)
  : list event * FileSystem * status :=
  let comparisonFile :=
    default "../cluster-monitoring-logs/cluster-monitoring.csv" (comparisonFile options) in
  let waitMS := default 60000 (waitMS options) in
  let statusDir := default "../cluster-monitoring-logs" (statusDir options) in
  match signIn_result w with
  | Throw e => ([ProcessOnSigint; SignIn], fileSystem w, Rejected e)
  | Normal _ =>
      let '(fs, previous) :=
        getPreviousClusterStatus localeCompare JSON_parse mkdir (fileSystem w) statusDir in
      match previous with
      | Throw e =>
          ([ProcessOnSigint; SignIn; Print ["Sign in completed." +:+ LF]],
           fs, Rejected e)
      | Normal previous =>
          let '(events, state) :=
            loop statusDir waitMS (sigint_before_loop w) previous (ticks w) in
          match stream_fails w events with
          | Some (before, error) =>
              ([ProcessOnSigint; SignIn; Print ["Sign in completed." +:+ LF];
                CreateWriteStream comparisonFile]
               ++ before ++ [UncaughtException error],
               fs, Exited 1)
          | None =>
              ([ProcessOnSigint; SignIn; Print ["Sign in completed." +:+ LF];
                CreateWriteStream comparisonFile]
               ++ events,
               fs, state)
          end
      end
  end.

End WithHost.

End MonitorEarlier.

(** ** The SDK object: [src/typescript/src/digital-factory.ts]

    The sign-in of the first listing of the file (lines 1-255). The second
    listing, which adds the refresh of the token, has the same [signIn] and
    the same listener, which there also records the time of the token. *)
Module DigitalFactory.

Definition DEFAULT_CLOUD_ACCOUNT_API_ROOT : string := "https://account.ultimaker.com".
Definition OAUTH_SERVER_URL : string := DEFAULT_CLOUD_ACCOUNT_API_ROOT.
Definition API_ROOT_URL : string := "https://api.ultimaker.com".

Definition CALLBACK_SERVER_PORT : Z := 32118.

Record TokenResponse := {
  access_token : string;
  expires_in : Z;
  refresh_token : string;
  scope : string;
  token_type : string;
}.

(** An [http.Server] listening on a port. *)
Inductive Server :=
| HttpServer (port : Z).

(** The [resolve] function of the promise that [signIn] returns. *)
Inductive Resolver :=
| SignInComplete.

(** The fields of a [DigitalFactoryDemo] object; [None] is [null]. *)
Record DigitalFactoryDemo := {
  _callbackServer : option Server;
  _state : option string;
  _pkceVerifier : option string;
  _tokenPair : option TokenResponse;
  _token_url : option string;
  _authorizationUrl : string;
  _redirectUri : option string;
  _signInCompleteResolve : option Resolver;
}.

(** [new DigitalFactoryDemo()] *)
Definition new : DigitalFactoryDemo :=
  {| _callbackServer := None;
     _state := None;
     _pkceVerifier := None;
     _tokenPair := None;
     _token_url := None;
     _authorizationUrl := OAUTH_SERVER_URL +:+ "/authorize";
     _redirectUri := None;
     _signInCompleteResolve := None |}.

(** The request object handed to the listener; only its [url] is read. *)
Record IncomingMessage := {
  url : option string;
}.

(** A [URLSearchParams] object: its name-value pairs in order. *)
Definition URLSearchParams : Type := list (string * string).

(** [params.get(name)]: the first value of that name, or [null]. *)
Definition searchParams_get (params : URLSearchParams) (name : string) : option string :=
  snd <$> head (filter (λ p, fst p = name) params).

(** The value of a [string | null | undefined] when it is truthy: [!s] holds
    for [null], [undefined] and the empty string. *)
Definition truthy (s : option string) : option string :=
  match s with
  | Some s => if bool_decide (s = "") then None else Some s
  | None => None
  end.

(** A [null] and an [undefined] as [URLSearchParams] writes them. *)
Definition of_null (s : option string) : string := default "null" s.
Definition of_undefined (s : option string) : string := default "undefined" s.

(** What a sign-in does that the outside world can see. *)
Inductive event :=
| CreateServer
| Listen (port : Z)
| Print (message : string)
| Fetch (target : option string) (method : string) (body : URLSearchParams)
| WriteHead (statusCode : Z)
| End_ (data : string)
| Close
| Resolve.

Section WithHost.

(** [process.env.CLIENT_ID] and [process.env.SCOPES] *)
Variable CLIENT_ID : option string.
Variable SCOPES : option string.
(** [createHash('sha512').update(s).digest()] *)
Variable sha512 : string → list Byte.byte.
(** [buffer.toString('base64')] *)
Variable toString_base64 : list Byte.byte → string.
(** [new URL(s).searchParams]; the constructor throws on an invalid URL. *)
Variable new_URL : string → completion URLSearchParams.
(** [params.toString()] *)
Variable URLSearchParams_toString : URLSearchParams → string.
(** [prettyJSON] of a string. *)
Variable prettyJSON : string → string.

(** [randomBytes(16).toString('base64')], given the bytes drawn. *)
Definition _generateState (randomBytes16 : list Byte.byte) : string :=
  toString_base64 randomBytes16.

(** [randomBytes(32).toString('base64')], given the bytes drawn. *)
Definition _generatePKCEVerifier (randomBytes32 : list Byte.byte) : string :=
  toString_base64 randomBytes32.

Definition _generatePKCEChallenge (verifier : string) : string :=
  toString_base64 (sha512 verifier).

(** The [query] that [signIn] builds. *)
Definition signIn_query (redirectUri state pkceVerifier : string) : URLSearchParams :=
  [ ("client_id", of_undefined CLIENT_ID);
    ("redirect_uri", redirectUri);
    ("scope", of_undefined SCOPES);
    ("state", state);
    ("response_type", "code");
    ("code_challenge", _generatePKCEChallenge pkceVerifier);
    ("code_challenge_method", "S512") ].

(** [signIn()], given the random bytes it draws; the promise it returns stays
    pending until [Resolve]. *)
Definition signIn (this : DigitalFactoryDemo) (randomBytes16 randomBytes32 : list Byte.byte)
  : DigitalFactoryDemo * list event :=
  let redirectUri := "http://localhost:" +:+ pretty CALLBACK_SERVER_PORT +:+ "/callback" in
  let state := _generateState randomBytes16 in
  let pkceVerifier := _generatePKCEVerifier randomBytes32 in
  let query := signIn_query redirectUri state pkceVerifier in
  let signInUrl := _authorizationUrl this +:+ "?" +:+ URLSearchParams_toString query in
  ({| _callbackServer := Some (HttpServer CALLBACK_SERVER_PORT);
      _state := Some state;
      _pkceVerifier := Some pkceVerifier;
      _tokenPair := _tokenPair this;
      _token_url := Some (OAUTH_SERVER_URL +:+ "/token");
      _authorizationUrl := _authorizationUrl this;
      _redirectUri := Some redirectUri;
      _signInCompleteResolve := Some SignInComplete |},
   [ CreateServer; Listen CALLBACK_SERVER_PORT;
     Print "Open the following URL in your browser and log in to Ultimaker Digital Factory:";
     Print "";
     Print ("    " +:+ signInUrl);
     Print "" ]).

(** The request that [_requestAccessToken] sends. *)
Definition _requestAccessToken (this : DigitalFactoryDemo) (code pkceVerifier : string) : event :=
  Fetch (_token_url this) "POST"
    [ ("client_id", of_undefined CLIENT_ID);
      ("redirect_uri", of_null (_redirectUri this));
      ("grant_type", "authorization_code");
      ("scope", of_undefined SCOPES);
      ("code", code);
      ("code_verifier", pkceVerifier) ].

(** The listener of the callback server up to its [await]: the checks, and
    the token request that is sent when they pass. [Normal None] says that
    the listener has returned. *)
Definition _handleRequest_checks (this : DigitalFactoryDemo) (req : IncomingMessage)
  : completion (option event) :=
  match truthy (url req) with
  | None => Normal None
  | Some req_url =>
  match truthy (_pkceVerifier this) with
  | None => Normal None
  | Some pkceVerifier =>
  match new_URL ("http://localhost:" +:+ pretty CALLBACK_SERVER_PORT +:+ req_url) with
  | Throw e => Throw e
  | Normal searchParams =>
  match truthy (searchParams_get searchParams "code") with
  | None => Normal None
  | Some code =>
  match truthy (searchParams_get searchParams "state") with
  | None => Normal None
  | Some state =>
  if bool_decide (Some state ≠ _state this) then Normal None
  else Normal (Some (_requestAccessToken this code pkceVerifier))
  end end end end end.

(** The listener from its [await] on: it is resumed with the answer to its
    token request, on the object as it is by then. *)
Definition _handleRequest_resume (this : DigitalFactoryDemo)
  (tokenResponse : completion TokenResponse)
  : DigitalFactoryDemo * list event * completion unit :=
  match tokenResponse with
  | Throw e => (this, [], Throw e)
  | Normal tokenPair =>
      ({| _callbackServer := None;
          _state := None;
          _pkceVerifier := None;
          _tokenPair := Some tokenPair;
          _token_url := _token_url this;
          _authorizationUrl := _authorizationUrl this;
          _redirectUri := _redirectUri this;
          _signInCompleteResolve := _signInCompleteResolve this |},
       [ Print ("Access token: " +:+ prettyJSON (access_token tokenPair));
         WriteHead 200;
         End_ "Sign in finished, you can now close this window." ]
       ++ (if _callbackServer this is Some _ then [Close] else [])
       ++ (if _signInCompleteResolve this is Some _ then [Resolve] else []),
       if _signInCompleteResolve this is Some _ then Normal tt
       else Throw "TypeError: this._signInCompleteResolve is not a function")
  end.

(** The listener, run from its first line to its last with nothing else
    happening during its [await]. [tokenResponse] is what the awaited
    [_requestAccessToken] comes back with, should the request be sent. *)
Definition _handleRequest (this : DigitalFactoryDemo) (req : IncomingMessage)
  (tokenResponse : completion TokenResponse)
  : DigitalFactoryDemo * list event * completion unit :=
  match _handleRequest_checks this req with
  | Throw e => (this, [], Throw e)
  | Normal None => (this, [], Normal tt)
  | Normal (Some request) =>
      let '(this', events, result) := _handleRequest_resume this tokenResponse in
      (this', request :: events, result)
  end.

(** What reaches the callback server: a request, or the answer to the token
    request of a listener that waits for one. *)
Inductive delivery :=
| Request (req : IncomingMessage)
| Answer (tokenResponse : completion TokenResponse).

(** The callback server. A request starts a listener, which runs up to its
    [await]; an answer resumes one of the [waiting] listeners. Listeners
    may so overlap; an answer that no listener waits for is dropped. A
    listener that throws rejects its promise, which nothing handles: the
    server is taken to go on, and where the platform ends the process
    instead, the run is that of the deliveries up to there. *)
Fixpoint serve (this : DigitalFactoryDemo) (waiting : nat) (deliveries : list delivery)
  : DigitalFactoryDemo * list event :=
  match deliveries with
  | [] => (this, [])
  | Request req :: deliveries' =>
      match _handleRequest_checks this req with
      | Normal (Some request) =>
          let '(this', events) := serve this (S waiting) deliveries' in
          (this', request :: events)
      | _ => serve this waiting deliveries'
      end
  | Answer tokenResponse :: deliveries' =>
      match waiting with
      | O => serve this O deliveries'
      | S waiting' =>
          let '(this', events, _) := _handleRequest_resume this tokenResponse in
          let '(this'', events') := serve this' waiting' deliveries' in
          (this'', events ++ events')
      end
  end.

(** The number of listeners that wait for an answer once the server has
    gone through some deliveries. *)
Fixpoint listeners (this : DigitalFactoryDemo) (waiting : nat) (deliveries : list delivery)
  : nat :=
  match deliveries with
  | [] => waiting
  | Request req :: deliveries' =>
      match _handleRequest_checks this req with
      | Normal (Some _) => listeners this (S waiting) deliveries'
      | _ => listeners this waiting deliveries'
      end
  | Answer tokenResponse :: deliveries' =>
      match waiting with
      | O => listeners this O deliveries'
      | S waiting' =>
          listeners (_handleRequest_resume this tokenResponse).1.1 waiting' deliveries'
      end
  end.

(** The checks on a request: its URL carries a non-empty [code] parameter
    and a [state] parameter equal to the stored state. *)
Definition passes_checks (this : DigitalFactoryDemo) (req : IncomingMessage) : Prop :=
  ∃ req_url searchParams code state,
    url req = Some req_url
    ∧ new_URL ("http://localhost:" +:+ pretty CALLBACK_SERVER_PORT +:+ req_url)
      = Normal searchParams
    ∧ searchParams_get searchParams "code" = Some code ∧ code ≠ ""
    ∧ searchParams_get searchParams "state" = Some state
    ∧ _state this = Some state.

End WithHost.

(** The token requests among some events. *)
Definition is_token_request (e : event) : bool :=
  match e with
  | Fetch _ _ _ => true
  | _ => false
  end.

(** The token requests sent during some events. *)
Definition token_requests (events : list event) : list event :=
  filter (λ e, is_token_request e = true) events.

End DigitalFactory.

(** ** Runs that leave a trace and may throw *)
Module Run.

(** A computation that has produced some events and then either a value or
    a thrown error. *)
Definition run (E A : Type) : Type := (list E * completion A)%type.

Definition ret {E A} (a : A) : run E A := ([], Normal a).

(** Sequencing: a thrown error skips what follows, as in an [async]
    function without a [try]. *)
Definition bind {E A B} (k : A → run E B) (m : run E A) : run E B :=
  match m with
  | (events, Normal a) => let '(events', b) := k a in (events ++ events', b)
  | (events, Throw e) => (events, Throw e)
  end.

(** An effect that cannot fail. *)
Definition emit {E} (e : E) : run E unit := ([e], Normal tt).

(** [await] of a call the outside world answers with [result]. *)
Definition await {E A} (e : E) (result : completion A) : run E A := ([e], result).

#[export] Instance run_ret E : MRet (run E) := λ A, ret.
#[export] Instance run_bind E : MBind (run E) := λ A B, bind.

End Run.

(** ** The interactive demo: [main] of [src/typescript/src/main.ts] *)
Module Demo.

Import Run.

(** The methods of the SDK object that reach an endpoint of the API. *)
Inductive endpoint :=
| createProject (name : string)
| addCommentToProject (projectId comment : string)
| uploadFileToProject (libraryProjectId : string) (filePath : option string)
| submitPrintJob (jobId : string) (clusterId : option string)
| getRunningPrintJobs
| searchProjects.

Inductive event :=
| SignIn
| Print (message : string)
| Call (e : endpoint)
| ConsoleError (error : string)
| ProcessExit (code : Z).

Section WithHost.

(** The objects of a response, and [prettyJSON] on them. *)
Variable json : Type.
Variable prettyJSON : json → string.

(** What the outside world answers during a run of the demo: the
    environment variables and the result of each awaited call. *)
Record World := {
  CLUSTER_ID : option string;
  UFP_PATH : option string;
  signIn_result : completion unit;
  createProject_result : completion string;
  addCommentToProject_result : completion unit;
  uploadFileToProject_result : completion string;
  submitPrintJob_result : completion string;
  getRunningPrintJobs_result : completion (list json);
  searchProjects_result : completion (list json);
}.

Definition print (message : string) : run event unit := emit (Print message).

(** The body of [main], up to its last [print]. *)
Definition main (w : World) : run event unit :=
  _ ← await SignIn (signIn_result w);
  _ ← print ("Sign in completed." +:+ LF);
  _ ← print "Creating demo project...";
  library_project_id ← await (Call (createProject "Demo project")) (createProject_result w);
  _ ← print ("Created project with ID: " +:+ library_project_id +:+ LF);
  _ ← print "Adding comment to demo project...";
  _ ← await (Call (addCommentToProject library_project_id "Demo comment"))
        (addCommentToProject_result w);
  _ ← print ("Comment added." +:+ LF);
  let clusterId := CLUSTER_ID w in
  let ufpPath := UFP_PATH w in
  _ ← (if bool_decide (clusterId ≠ Some "your-cluster-id")
          && bool_decide (ufpPath ≠ Some "path/to/your/file.ufp")
       then
         _ ← print "Uploading file to demo project...";
         job_id ← await (Call (uploadFileToProject library_project_id ufpPath))
                    (uploadFileToProject_result w);
         _ ← print ("Uploaded file with ID: " +:+ job_id +:+ LF);
         _ ← print ("Visit https://digitalfactory.ultimaker.com/app/library/project/"
                    +:+ library_project_id +:+ " to see your project" +:+ LF);
         _ ← print "Submitting a print job";
         job_instance_uuid ← await (Call (submitPrintJob job_id clusterId))
                               (submitPrintJob_result w);
         print ("Submitted print job with ID: " +:+ job_instance_uuid +:+ LF)
       else
         print "(Skipping print job submission. Configure a cluster ID and UFP in 'config.env' for this part of the demo.)");
  _ ← print "Getting running print jobs.";
  printJobs ← await (Call getRunningPrintJobs) (getRunningPrintJobs_result w);
  _ ← match printJobs with
      | first :: _ =>
          _ ← print ("Total print jobs retrieved: " +:+ pretty (length printJobs));
          print ("First print job retrieved: " +:+ prettyJSON first +:+ LF)
      | [] =>
          print ("No running print jobs found. Sometimes it takes up to 10 second for new print jobs to show up." +:+ LF)
      end;
  _ ← print "Searching projects.";
  projects ← await (Call searchProjects) (searchProjects_result w);
  match projects with
  | first :: _ =>
      _ ← print ("Total projects retrieved: " +:+ pretty (length projects));
      print ("First project retrieved: " +:+ prettyJSON first +:+ LF)
  | [] => print ("No projects found." +:+ LF)
  end.

(** The script around [main]:
    [main().then(() => process.exit(0)).catch(... process.exit(1))]. *)
Definition script (w : World) : list event :=
  match main w with
  | (events, Normal _) => events ++ [ProcessExit 0]
  | (events, Throw error) => events ++ [ConsoleError error; ProcessExit 1]
  end.

(** The script of the earlier [src/typescript/src/main.ts], whose [main]
    ends with [process.exit(0)] itself and is called without a [catch]. *)
Definition script_main_ts (w : World) : list event :=
  match main w with
  | (events, Normal _) => events ++ [ProcessExit 0]
  | (events, Throw error) => events
  end.

End WithHost.

(** The endpoints reached during some events, in order. *)
Definition calls (events : list event) : list endpoint :=
  omap (λ e, match e with Call c => Some c | _ => None end) events.

(** The endpoint names of the overview. *)
Inductive endpoint_name :=
| create_project
| add_comment
| upload_file
| submit_print_job
| list_running_jobs
| search_projects.

Definition name_of (e : endpoint) : endpoint_name :=
  match e with
  | createProject _ => create_project
  | addCommentToProject _ _ => add_comment
  | uploadFileToProject _ _ => upload_file
  | submitPrintJob _ _ => submit_print_job
  | getRunningPrintJobs => list_running_jobs
  | searchProjects => search_projects
  end.

(** Whether a cluster and a file are configured, that is, whether the two
    settings differ from the placeholders of the example configuration. *)
Definition configured {json} (w : World json) : bool :=
  bool_decide (CLUSTER_ID _ w ≠ Some "your-cluster-id")
  && bool_decide (UFP_PATH _ w ≠ Some "path/to/your/file.ufp").

(** The order of the overview, and the order with the guard on the
    configuration. *)
Definition all_six : list endpoint_name :=
  [ create_project; add_comment; upload_file; submit_print_job;
    list_running_jobs; search_projects ].

Definition guarded_order {json} (w : World json) : list endpoint_name :=
  [create_project; add_comment]
  ++ (if configured w then [upload_file; submit_print_job] else [])
  ++ [list_running_jobs; search_projects].

(** Every call is followed by a print, unless the run ends with it. *)
Fixpoint each_call_printed (events : list event) : bool :=
  match events with
  | [] => true
  | Call _ :: rest =>
      match rest with
      | [] => true
      | Print _ :: _ => each_call_printed rest
      | _ => false
      end
  | _ :: rest => each_call_printed rest
  end.

End Demo.

(** ** The calls of the API: [src/typescript/src/digital-factory.ts], second listing

    The methods of the class that reach the API (lines 400-560): the request
    headers, the refresh of the token, the three HTTP helpers and the seven
    calls. The object is the one of the sign-in with the time of its token.
    What the identity provider answers is stored as it comes,
    [response.json()] being of type [any] when the program runs: the token
    pair of the object is a value. *)
Module Api.

Import DigitalFactory.

(** The values of JavaScript that a response can hold and a request body is
    built from. An object is the list of its properties, each name once. *)
#[warnings="-register-all"]
Inductive value :=
| Undefined
| Null
| Bool (b : bool)
| Num (n : Z)
| Str (s : string)
| Arr (elements : list value)
| Obj (properties : list (string * value)).

(** [v.key] for a key that arrays, strings, numbers and booleans do not have
    themselves, as [data] and [upload_url]: [undefined] when [v] has no such
    property, a [TypeError] when [v] is [null] or [undefined]. *)
Definition prop (v : value) (key : string) : completion value :=
  match v with
  | Undefined =>
      Throw ("TypeError: Cannot read properties of undefined (reading '" +:+ key +:+ "')")
  | Null =>
      Throw ("TypeError: Cannot read properties of null (reading '" +:+ key +:+ "')")
  | Obj properties =>
      Normal (default Undefined (snd <$> head (filter (λ p, fst p = key) properties)))
  | _ => Normal Undefined
  end.

(** A [string | null] as a value. *)
Definition of_option (s : option string) : value :=
  match s with
  | Some s => Str s
  | None => Null
  end.

(** A token response at its declared type, as a value. *)
Definition of_TokenResponse (tokenPair : TokenResponse) : value :=
  Obj [ ("access_token", Str (access_token tokenPair));
        ("expires_in", Num (expires_in tokenPair));
        ("refresh_token", Str (refresh_token tokenPair));
        ("scope", Str (scope tokenPair));
        ("token_type", Str (token_type tokenPair)) ].

(** A value holds a token pair when the three properties that the methods
    read are those of the pair, at their declared types. *)
Definition holds (v : value) (tokenPair : TokenResponse) : Prop :=
  prop v "access_token" = Normal (Str (access_token tokenPair))
  ∧ prop v "expires_in" = Normal (Num (expires_in tokenPair))
  ∧ prop v "refresh_token" = Normal (Str (refresh_token tokenPair)).

(** [a > b] on numbers, where [None] is [NaN]: no number is greater than
    [NaN]. *)
Definition greater_than (a : Z) (b : option Z) : bool :=
  match b with
  | Some b => bool_decide (b < a)
  | None => false
  end.

(** The body of a request. *)
Inductive body :=
| NoBody
| Text (text : string)
| Form (params : URLSearchParams)
| Bytes (data : list Byte.byte).

(** What a call does that the outside world can see. The headers of a
    request are an object: a map from names to values. *)
Inductive event :=
| Print (message : string)
| ReadFileSync (path : string)
| Fetch (target : value) (method : string) (headers : gmap string string) (payload : body).

(** The fields of a [DigitalFactoryDemo] object in this listing: those of
    the first and [_tokenTimestampMs]. *)
Record DigitalFactoryDemo := {
  _callbackServer : option Server;
  _state : option string;
  _pkceVerifier : option string;
  _tokenPair : value;
  _tokenTimestampMs : Z;
  _token_url : option string;
  _authorizationUrl : string;
  _redirectUri : option string;
  _signInCompleteResolve : option Resolver;
}.

(** [new DigitalFactoryDemo()] *)
Definition new : DigitalFactoryDemo :=
  {| _callbackServer := None;
     _state := None;
     _pkceVerifier := None;
     _tokenPair := Null;
     _tokenTimestampMs := 0;
     _token_url := None;
     _authorizationUrl := OAUTH_SERVER_URL +:+ "/authorize";
     _redirectUri := None;
     _signInCompleteResolve := None |}.

(** An object of the first listing as one of this listing: [signIn] is the
    same in both. *)
Definition of_signIn (this : DigitalFactory.DigitalFactoryDemo) (tokenTimestampMs : Z)
  : DigitalFactoryDemo :=
  {| _callbackServer := DigitalFactory._callbackServer this;
     _state := DigitalFactory._state this;
     _pkceVerifier := DigitalFactory._pkceVerifier this;
     _tokenPair :=
       match DigitalFactory._tokenPair this with
       | Some tokenPair => of_TokenResponse tokenPair
       | None => Null
       end;
     _tokenTimestampMs := tokenTimestampMs;
     _token_url := DigitalFactory._token_url this;
     _authorizationUrl := DigitalFactory._authorizationUrl this;
     _redirectUri := DigitalFactory._redirectUri this;
     _signInCompleteResolve := DigitalFactory._signInCompleteResolve this |}.

(** [this._tokenPair = tokenPair] and [this._tokenTimestampMs = now] *)
Definition set_tokenPair (tokenPair : value) (this : DigitalFactoryDemo)
  : DigitalFactoryDemo :=
  {| _callbackServer := _callbackServer this;
     _state := _state this;
     _pkceVerifier := _pkceVerifier this;
     _tokenPair := tokenPair;
     _tokenTimestampMs := _tokenTimestampMs this;
     _token_url := _token_url this;
     _authorizationUrl := _authorizationUrl this;
     _redirectUri := _redirectUri this;
     _signInCompleteResolve := _signInCompleteResolve this |}.

Definition set_tokenTimestampMs (now : Z) (this : DigitalFactoryDemo)
  : DigitalFactoryDemo :=
  {| _callbackServer := _callbackServer this;
     _state := _state this;
     _pkceVerifier := _pkceVerifier this;
     _tokenPair := _tokenPair this;
     _tokenTimestampMs := now;
     _token_url := _token_url this;
     _authorizationUrl := _authorizationUrl this;
     _redirectUri := _redirectUri this;
     _signInCompleteResolve := _signInCompleteResolve this |}.

(** A method of the object: it starts from the object, leaves events, and
    ends with the object and a value or a thrown error. *)
Definition M (A : Type) : Type :=
  DigitalFactoryDemo → DigitalFactoryDemo * list event * completion A.

Definition ret {A} (a : A) : M A := λ this, (this, [], Normal a).

Definition bind {A B} (k : A → M B) (m : M A) : M B := λ this,
  match m this with
  | (this', events, Normal a) =>
      let '(this'', events', b) := k a this' in (this'', events ++ events', b)
  | (this', events, Throw e) => (this', events, Throw e)
  end.

#[export] Instance M_ret : MRet M := λ A, ret.
#[export] Instance M_bind : MBind M := λ A B, bind.

(** [this], an assignment to [this], a thrown error, the outcome of an
    expression, and an effect with the answer of the outside world. *)
Definition get_this : M DigitalFactoryDemo := λ this, (this, [], Normal this).
Definition modify (f : DigitalFactoryDemo → DigitalFactoryDemo) : M unit :=
  λ this, (f this, [], Normal tt).
Definition throw {A} (e : string) : M A := λ this, (this, [], Throw e).
Definition lift {A} (c : completion A) : M A := λ this, (this, [], c).
Definition effect {A} (e : event) (answer : completion A) : M A :=
  λ this, (this, [e], answer).

Definition print (message : string) : M unit := effect (Print message) (Normal tt).

(** What the clock and the identity provider answer during one
    [_checkTokenExpiration]: [Date.now()] at the check, the answer to the
    refresh request should it be sent, which is what [response.json()]
    yields, a token pair or not, and [Date.now()] after that answer. *)
Record Refresh := {
  now : Z;
  refreshed : completion value;
  now_refreshed : Z;
}.

Section WithHost.

(** [process.env.CLIENT_ID] and [process.env.SCOPES] *)
Variable CLIENT_ID : option string.
Variable SCOPES : option string.
(** [prettyJSON], that is [JSON.stringify(_, null, 4)], as a template
    literal or a request body shows it. *)
Variable prettyJSON : value → string.
(** A number, an array or an object as a string. *)
Variable String_of : value → string.
(** A string, an array or an object as a number; [None] is [NaN]. *)
Variable Number_of : value → option Z.
(** [path.posix.basename] *)
Variable basename : string → string.
(** [params.toString()] *)
Variable URLSearchParams_toString : URLSearchParams → string.

(** A value inside a template literal or as a parameter of a form. *)
Definition ToString (v : value) : string :=
  match v with
  | Undefined => "undefined"
  | Null => "null"
  | Bool true => "true"
  | Bool false => "false"
  | Str s => s
  | _ => String_of v
  end.

(** A value as an operand of [-]. *)
Definition ToNumber (v : value) : option Z :=
  match v with
  | Undefined => None
  | Null => Some 0
  | Bool true => Some 1
  | Bool false => Some 0
  | Num n => Some n
  | _ => Number_of v
  end.

Definition _getRequestHeaders : M (gmap string string) :=
  this ← get_this;
  access_token ← lift (prop (_tokenPair this) "access_token");
  mret {[ "Authorization" := "Bearer " +:+ ToString access_token ]}.

(** Refresh 30s before the token expires. *)
Definition _tokenNeedsRefresh (now : Z) : M bool :=
  this ← get_this;
  expires_in ← lift (prop (_tokenPair this) "expires_in");
  mret (greater_than now
          ((λ n, _tokenTimestampMs this + 1000 * (n - 30)) <$> ToNumber expires_in)).

Definition _requestTokenRefresh (answer : completion value) : M value :=
  this ← get_this;
  refresh_token ← lift (prop (_tokenPair this) "refresh_token");
  effect
    (Fetch (of_option (_token_url this)) "POST" ∅
       (Form [ ("client_id", of_undefined CLIENT_ID);
               ("grant_type", "refresh_token");
               ("refresh_token", ToString refresh_token);
               ("scope", of_undefined SCOPES) ]))
    answer.

Definition _checkTokenExpiration (r : Refresh) : M unit :=
  needsRefresh ← _tokenNeedsRefresh (now r);
  if negb needsRefresh then mret tt
  else
    _ ← print "Trying to refresh the token";
    tokenPair ← _requestTokenRefresh (refreshed r);
    _ ← modify (set_tokenPair tokenPair);
    _ ← modify (set_tokenTimestampMs (now_refreshed r));
    access_token ← lift (prop tokenPair "access_token");
    _ ← print ("New access token: " +:+ prettyJSON access_token);
    expires_in ← lift (prop tokenPair "expires_in");
    print ("Expires in: " +:+ ToString expires_in +:+ "s").

(** [answer] is what [fetch] and [response.json()] come back with. *)
Definition httpGetDigitalFactory (url : string) (answer : completion value) : M value :=
  headers ← _getRequestHeaders;
  effect (Fetch (Str url) "GET" headers NoBody) answer.

(** The headers [{ 'Content-Type': ..., ...additional_headers,
    ...this._getRequestHeaders() }]: a later name wins over an earlier one. *)
Definition httpPutDigitalFactory (url : string) (body : value)
  (additional_headers : gmap string string) (answer : completion value) : M value :=
  authorization ← _getRequestHeaders;
  let headers :=
    authorization ∪ additional_headers ∪ {[ "Content-Type" := "application/json" ]} in
  effect (Fetch (Str url) "PUT" headers (Text (prettyJSON body))) answer.

Definition httpPostDigitalFactory (url : string) (body : value)
  (additional_headers : gmap string string) (answer : completion value) : M value :=
  authorization ← _getRequestHeaders;
  let headers :=
    authorization ∪ additional_headers ∪ {[ "Content-Type" := "application/json" ]} in
  effect (Fetch (Str url) "POST" headers (Text (prettyJSON body))) answer.

Definition createProject (name : string) (r : Refresh) (answer : completion value)
  : M value :=
  _ ← _checkTokenExpiration r;
  response ← httpPutDigitalFactory (API_ROOT_URL +:+ "/cura/v1/projects")
                (Obj [("data", Obj [("display_name", Str name)])]) ∅ answer;
  lift (prop response "data").

(** [file] is what [fs.readFileSync] comes back with, [uploaded] what the
    [fetch] of the upload URL does; its response is not looked at. *)
Definition uploadFileToProject (libraryProjectId filePath : string)
  (file : completion (list Byte.byte)) (r : Refresh)
  (answer : completion value) (uploaded : completion unit) : M value :=
  let filename := basename filePath in
  fileContents ← effect (ReadFileSync filePath) file;
  let contentLength := Z.of_nat (length fileContents) in
  let mimeType := "application/x-ufp" in
  _ ← _checkTokenExpiration r;
  jobUploadResponse ←
    httpPutDigitalFactory (API_ROOT_URL +:+ "/cura/v1/jobs/upload")
      (Obj [("data", Obj [ ("job_name", Str filename);
                           ("content_type", Str mimeType);
                           ("file_size", Num contentLength);
                           ("library_project_id", Str libraryProjectId) ])])
      ∅ answer;
  data ← lift (prop jobUploadResponse "data");
  uploadUrl ← lift (prop data "upload_url");
  _ ← print ("upload url: " +:+ ToString uploadUrl);
  _ ← effect (Fetch uploadUrl "PUT" {[ "Content-Type" := mimeType ]} (Bytes fileContents))
        uploaded;
  lift (prop jobUploadResponse "data").

Definition addCommentToProject (projectId comment : string) (r : Refresh)
  (answer : completion value) : M value :=
  _ ← _checkTokenExpiration r;
  response ←
    httpPutDigitalFactory
      (API_ROOT_URL +:+ "/cura/v1/projects/" +:+ projectId +:+ "/comments")
      (Obj [("data", Obj [("body", Str comment)])]) ∅ answer;
  lift (prop response "data").

Definition submitPrintJob (jobId clusterId : string) (r : Refresh)
  (answer : completion value) : M value :=
  _ ← _checkTokenExpiration r;
  response ←
    httpPostDigitalFactory
      (API_ROOT_URL +:+ "/connect/v1/clusters/" +:+ clusterId +:+ "/print/" +:+ jobId)
      (Obj [("data", Obj [])]) ∅ answer;
  lift (prop response "data").

Definition getRunningPrintJobs (r : Refresh) (answer : completion value) : M value :=
  let query := [("limit", "20"); ("status", "in_progress")] in
  _ ← _checkTokenExpiration r;
  response ←
    httpGetDigitalFactory
      (API_ROOT_URL +:+ "/connect/v1/print_jobs?" +:+ URLSearchParams_toString query)
      answer;
  lift (prop response "data").

Definition getClusters (r : Refresh) (answer : completion value) : M value :=
  _ ← _checkTokenExpiration r;
  response ← httpGetDigitalFactory (API_ROOT_URL +:+ "/connect/v1/clusters") answer;
  lift (prop response "data").

Definition searchProjects (r : Refresh) (answer : completion value) : M value :=
  let query := [("limit", "24"); ("page", "1"); ("search", "demo"); ("shared", "false")] in
  _ ← _checkTokenExpiration r;
  response ←
    httpGetDigitalFactory
      (API_ROOT_URL +:+ "/cura/v1/projects?" +:+ URLSearchParams_toString query)
      answer;
  lift (prop response "data").

(** The second half of the listener in this listing: as in the first, and
    the time of the token is recorded and its lifetime printed. The answer
    is stored, with the time, before anything of it is read: an answer that
    is [null] makes the first [print] throw, and nothing is reset. *)
Definition _handleRequest_resume (this : DigitalFactoryDemo) (now : Z)
  (tokenResponse : completion value)
  : DigitalFactoryDemo * list DigitalFactory.event * completion unit :=
  match tokenResponse with
  | Throw e => (this, [], Throw e)
  | Normal tokenPair =>
      let stored := set_tokenTimestampMs now (set_tokenPair tokenPair this) in
      match prop tokenPair "access_token" with
      | Throw e => (stored, [], Throw e)
      | Normal access_token =>
      match prop tokenPair "expires_in" with
      | Throw e =>
          (stored,
           [DigitalFactory.Print ("Access token: " +:+ prettyJSON access_token)],
           Throw e)
      | Normal expires_in =>
          ({| _callbackServer := None;
              _state := None;
              _pkceVerifier := None;
              _tokenPair := tokenPair;
              _tokenTimestampMs := now;
              _token_url := _token_url this;
              _authorizationUrl := _authorizationUrl this;
              _redirectUri := _redirectUri this;
              _signInCompleteResolve := _signInCompleteResolve this |},
           [ DigitalFactory.Print ("Access token: " +:+ prettyJSON access_token);
             DigitalFactory.Print ("Expires in: " +:+ ToString expires_in +:+ "s");
             WriteHead 200;
             End_ "Sign in finished, you can now close this window." ]
           ++ (if _callbackServer this is Some _ then [Close] else [])
           ++ (if _signInCompleteResolve this is Some _ then [Resolve] else []),
           if _signInCompleteResolve this is Some _ then Normal tt
           else Throw "TypeError: this._signInCompleteResolve is not a function")
      end end
  end.

(** The calls of the object, each with the answers of the outside world. *)
Inductive call :=
| CreateProject (name : string)
    (r : Refresh) (answer : completion value)
| UploadFileToProject (libraryProjectId filePath : string)
    (file : completion (list Byte.byte))
    (r : Refresh) (answer : completion value) (uploaded : completion unit)
| AddCommentToProject (projectId comment : string)
    (r : Refresh) (answer : completion value)
| SubmitPrintJob (jobId clusterId : string)
    (r : Refresh) (answer : completion value)
| GetRunningPrintJobs (r : Refresh) (answer : completion value)
| GetClusters (r : Refresh) (answer : completion value)
| SearchProjects (r : Refresh) (answer : completion value).

Definition invoke (c : call) : M value :=
  match c with
  | CreateProject name r answer => createProject name r answer
  | UploadFileToProject libraryProjectId filePath file r answer uploaded =>
      uploadFileToProject libraryProjectId filePath file r answer uploaded
  | AddCommentToProject projectId comment r answer =>
      addCommentToProject projectId comment r answer
  | SubmitPrintJob jobId clusterId r answer => submitPrintJob jobId clusterId r answer
  | GetRunningPrintJobs r answer => getRunningPrintJobs r answer
  | GetClusters r answer => getClusters r answer
  | SearchProjects r answer => searchProjects r answer
  end.

End WithHost.

(** The answers of a call: to its check of the token, and to its request to
    the API. *)
Definition refresh_of (c : call) : Refresh :=
  match c with
  | CreateProject _ r _ | UploadFileToProject _ _ _ r _ _
  | AddCommentToProject _ _ r _ | SubmitPrintJob _ _ r _
  | GetRunningPrintJobs r _ | GetClusters r _ | SearchProjects r _ => r
  end.

Definition answer_of (c : call) : completion value :=
  match c with
  | CreateProject _ _ answer | UploadFileToProject _ _ _ _ answer _
  | AddCommentToProject _ _ _ answer | SubmitPrintJob _ _ _ answer
  | GetRunningPrintJobs _ answer | GetClusters _ answer | SearchProjects _ answer =>
      answer
  end.

(** Whether a call is the upload of a file, the one call that sends more
    than its request to the API. *)
Definition uploads (c : call) : bool :=
  match c with
  | UploadFileToProject _ _ _ _ _ _ => true
  | _ => false
  end.

(** The kinds of requests: the refresh of the token goes with a form, the
    upload of a file with its bytes, a request to the API with a text or
    with nothing. *)
Definition is_refresh (e : event) : bool :=
  match e with Fetch _ _ _ (Form _) => true | _ => false end.
Definition is_upload (e : event) : bool :=
  match e with Fetch _ _ _ (Bytes _) => true | _ => false end.
Definition is_api_request (e : event) : bool :=
  match e with Fetch _ _ _ (Text _) | Fetch _ _ _ NoBody => true | _ => false end.
Definition is_request (e : event) : bool :=
  match e with Fetch _ _ _ _ => true | _ => false end.

Definition requests (kind : event → bool) (events : list event) : list event :=
  filter (λ e, kind e = true) events.

End Api.

(** ** What a run of the monitor shows: notions to state its invariants *)
Module MonitorRun.

Import Monitor.

(** The paths given to [writeFile] during some events. *)
Definition written_paths (events : list event) : list string :=
  omap (λ e, match e with WriteFile path _ _ => Some path | _ => None end) events.

(** The answers that the loop goes through: all of them up to the pass
    during which SIGINT arrives, that pass included. *)
Fixpoint passes (aborted : bool) (ticks : list Tick) : list Tick :=
  if aborted then []
  else
    match ticks with
    | [] => []
    | t :: ticks' => t :: passes (sigint t) ticks'
    end.

(** The pass is left by [continue]: the answer of [getClusters] is falsy. *)
Definition is_continue (t : Tick) : bool :=
  match getClusters_result t with
  | Normal None => true
  | _ => false
  end.

(** The pass fetches a cluster list and writes its snapshot. *)
Definition is_success (t : Tick) : bool :=
  match getClusters_result t, writeFile_result t with
  | Normal (Some _), Normal _ => true
  | _, _ => false
  end.

(** More kinds of events: a timer started, an error logged by
    [console.error], the process left. *)
Definition is_wait (e : event) : bool :=
  match e with SetTimeout _ => true | _ => false end.
Definition is_consoleError (e : event) : bool :=
  match e with ConsoleError _ => true | _ => false end.
Definition is_exit (e : event) : bool :=
  match e with ProcessExit _ => true | _ => false end.
Definition is_uncaught (e : event) : bool :=
  match e with UncaughtException _ => true | _ => false end.

(** A snapshot name as the loop writes it: in the status directory, free of
    colons, ending in [-clusters.json], and so with the ending that
    [getPreviousClusterStatus] looks for. *)
Definition snapshot_path (statusDir path : string) : Prop :=
  ∃ name,
    path = statusDir +:+ "/" +:+ name
    ∧ ¬ In ":"%char (String.list_ascii_of_string name)
    ∧ endsWith name "-clusters.json" = true
    ∧ endsWith name ".json" = true.

End MonitorRun.

(** ** A host and inputs to run the definitions on *)
Module Sample.

(** A clock that stands still. *)
Definition toISOString (date : Z) : string := "2021-06-01T10:00:00.000Z".

(** A printer of cluster lists that keeps the cluster IDs only. *)
Definition prettyJSON_clusters (clusters : list Monitor.ClusterResponse) : string :=
  "[" +:+ String.concat "," (Monitor.cluster_id <$> clusters) +:+ "]".

(** A printer of comparisons that keeps the two counts only. *)
Definition prettyJSON_comparison (comparison : Monitor.Comparison) : string :=
  pretty (Monitor.onlineCount comparison) +:+ "/"
  +:+ pretty (Monitor.offlineCount comparison).

Definition printer1 : Monitor.ClusterResponse :=
  {| Monitor.cluster_id := "printer-1"; Monitor.is_online := true |}.
Definition printer2 : Monitor.ClusterResponse :=
  {| Monitor.cluster_id := "printer-2"; Monitor.is_online := false |}.

(** A parser that knows two snapshots, as the printer above writes them:
    the empty cluster list and the list of the first printer. *)
Definition JSON_parse (data : string) : completion Monitor.snapshot :=
  if String.eqb data "[]" then Normal (Monitor.Clusters [])
  else if String.eqb data "[printer-1]" then Normal (Monitor.Clusters [printer1])
  else Throw "SyntaxError: Unexpected token".

(** A stand-in for [localeCompare] on names that differ in a letter: as the
    collation of the platform does, it compares letters before it looks at
    their case, so that [a.json] comes before [B.json]; by character codes
    every capital comes before every small letter. *)
Definition lowercase_ascii (c : ascii) : ascii :=
  let n := nat_of_ascii c in
  if (65 <=? n)%nat && (n <=? 90)%nat then ascii_of_nat (n + 32) else c.

Fixpoint lowercase (s : string) : string :=
  match s with
  | EmptyString => EmptyString
  | String c s' => String (lowercase_ascii c) (lowercase s')
  end.

Definition localeCompare (a b : string) : Z :=
  Monitor.compareCharCodes (lowercase a) (lowercase b).

(** A pass in which the fetch returns two clusters and nothing fails. *)
Definition tick_ok : Monitor.Tick :=
  {| Monitor.getClusters_result := Normal (Some [printer1; printer2]);
     Monitor.new_Date := 1622541600000;
     Monitor.writeFile_result := Normal tt;
     Monitor.sigint_before_wait := false;
     Monitor.sigint_during_wait := false |}.

(** A pass in which the fetch fails. *)
Definition tick_error : Monitor.Tick :=
  {| Monitor.getClusters_result := Throw "FetchError: ETIMEDOUT";
     Monitor.new_Date := 1622541600000;
     Monitor.writeFile_result := Normal tt;
     Monitor.sigint_before_wait := false;
     Monitor.sigint_during_wait := false |}.

(** A stand-in for [mkdir] with [recursive] set, for a path whose parent
    exists and is not listed: the empty path is rejected, a directory that
    exists is left as it is, and a new one is empty. *)
Definition mkdir (fs : Monitor.FileSystem) (path : string)
  : gmap string (list string) * completion unit :=
  if String.eqb path "" then
    (Monitor.dirs fs, Throw "ENOENT: no such file or directory, mkdir ''")
  else
    match Monitor.dirs fs !! path with
    | Some _ => (Monitor.dirs fs, Normal tt)
    | None => (<[path := []]> (Monitor.dirs fs), Normal tt)
    end.

(** No option given, so the defaults apply. *)
Definition no_options : Monitor.MonitorClustersOptions :=
  {| Monitor.comparisonFile := None; Monitor.statusDir := None; Monitor.waitMS := None |}.

(** File systems: without status directory, with a status directory that
    holds no snapshot, and with one that holds two snapshots and a file of
    another kind. *)
Definition no_status_dir : Monitor.FileSystem :=
  {| Monitor.dirs := ∅; Monitor.files := ∅ |}.

Definition no_snapshots : Monitor.FileSystem :=
  {| Monitor.dirs := {[ "logs" := ["readme.txt"] ]};
     Monitor.files := {[ "logs/readme.txt" := "" ]} |}.

Definition status_names : list string :=
  [ "2021-06-01T10-00-00.000Z-clusters.json";
    "readme.txt";
    "2021-06-01T11-00-00.000Z-clusters.json" ].

Definition two_snapshots : Monitor.FileSystem :=
  {| Monitor.dirs := {[ "logs" := status_names ]};
     Monitor.files := {[ "logs/2021-06-01T10-00-00.000Z-clusters.json" := "[]";
                         "logs/readme.txt" := "";
                         "logs/2021-06-01T11-00-00.000Z-clusters.json" := "[printer-1]" ]} |}.

(** A status directory whose two snapshots are named by hand. *)
Definition named_by_hand : Monitor.FileSystem :=
  {| Monitor.dirs := {[ "logs" := ["a.json"; "B.json"] ]};
     Monitor.files := {[ "logs/a.json" := "[printer-1]"; "logs/B.json" := "[]" ]} |}.

(** A machine on which the monitor has never run: the status directory does
    not exist. The sign-in succeeds and one pass is observed. *)
Definition fresh_machine : Monitor.World :=
  {| Monitor.signIn_result := Normal tt;
     Monitor.fileSystem := no_status_dir;
     Monitor.sigint_before_loop := false;
     Monitor.ticks := [tick_ok];
     Monitor.stream_error := None |}.

(** A host for the sign-in: a digest and an encoding that are constant, a
    URL parser that finds the parameters of the one callback URL below,
    rejects the URL made from the request target [*], whose port does not
    parse, and finds no parameter in any other URL, printers that do
    nothing. *)
Definition sha512 (data : string) : list Byte.byte := [].
Definition toString_base64 (bytes : list Byte.byte) : string := "c2VjcmV0".
Definition new_URL (s : string) : completion DigitalFactory.URLSearchParams :=
  if String.eqb s "http://localhost:32118/callback?code=abc&state=c2VjcmV0"
  then Normal [("code", "abc"); ("state", "c2VjcmV0")]
  else if String.eqb s "http://localhost:32118*"
  then Throw "TypeError [ERR_INVALID_URL]: Invalid URL"
  else Normal [].
Definition URLSearchParams_toString (params : DigitalFactory.URLSearchParams) : string := "".
Definition prettyJSON (s : string) : string := s.

(** The object once [signIn] has been called on it. *)
Definition signing_in : DigitalFactory.DigitalFactoryDemo :=
  (DigitalFactory.signIn None None sha512 toString_base64 URLSearchParams_toString
     DigitalFactory.new [] []).1.

(** The redirect of the identity provider, another request, and a token. *)
Definition callback : DigitalFactory.IncomingMessage :=
  {| DigitalFactory.url := Some "/callback?code=abc&state=c2VjcmV0" |}.
Definition favicon : DigitalFactory.IncomingMessage :=
  {| DigitalFactory.url := Some "/favicon.ico" |}.
(** The request [OPTIONS * HTTP/1.1]. *)
Definition asterisk : DigitalFactory.IncomingMessage :=
  {| DigitalFactory.url := Some "*" |}.
Definition tokens : DigitalFactory.TokenResponse :=
  {| DigitalFactory.access_token := "access";
     DigitalFactory.expires_in := 3600;
     DigitalFactory.refresh_token := "refresh";
     DigitalFactory.scope := "";
     DigitalFactory.token_type := "Bearer" |}.

(** A run of the demo with the example configuration left as it is, every
    call succeeding. *)
Definition demo_unconfigured : Demo.World string :=
  {| Demo.CLUSTER_ID := Some "your-cluster-id";
     Demo.UFP_PATH := Some "path/to/your/file.ufp";
     Demo.signIn_result := Normal tt;
     Demo.createProject_result := Normal "project-1";
     Demo.addCommentToProject_result := Normal tt;
     Demo.uploadFileToProject_result := Normal "job-1";
     Demo.submitPrintJob_result := Normal "instance-1";
     Demo.getRunningPrintJobs_result := Normal [];
     Demo.searchProjects_result := Normal ["{}"] |}.

(** The same with a cluster and a file configured. *)
Definition demo_configured : Demo.World string :=
  {| Demo.CLUSTER_ID := Some "cluster-1";
     Demo.UFP_PATH := Some "benchy.ufp";
     Demo.signIn_result := Normal tt;
     Demo.createProject_result := Normal "project-1";
     Demo.addCommentToProject_result := Normal tt;
     Demo.uploadFileToProject_result := Normal "job-1";
     Demo.submitPrintJob_result := Normal "instance-1";
     Demo.getRunningPrintJobs_result := Normal ["{}"];
     Demo.searchProjects_result := Normal ["{}"] |}.

End Sample.

(** ** Inputs to run the calls of the API and the further definitions on *)
Module SampleApi.

(** The status directory of [Sample.two_snapshots], listed in another
    order. *)
Definition listed_otherwise : Monitor.FileSystem :=
  {| Monitor.dirs :=
       {[ "logs" := [ "readme.txt";
                      "2021-06-01T11-00-00.000Z-clusters.json";
                      "2021-06-01T10-00-00.000Z-clusters.json" ] ]};
     Monitor.files := Monitor.files Sample.two_snapshots |}.

(** A machine on which the comparison file cannot be opened. *)
Definition read_only_logs : Monitor.World :=
  {| Monitor.signIn_result := Normal tt;
     Monitor.fileSystem := Sample.no_snapshots;
     Monitor.sigint_before_loop := false;
     Monitor.ticks := [Sample.tick_ok; Sample.tick_ok];
     Monitor.stream_error :=
       Some (0%nat, "Error: EACCES: permission denied, open 'cluster-monitoring.csv'") |}.

(** A host for the calls: printers that tell strings from other values only,
    no number in a string, an array or an object, and paths that have no
    directory part. *)
Definition prettyJSON (v : Api.value) : string :=
  match v with
  | Api.Str s => s
  | _ => "{}"
  end.
Definition String_of (v : Api.value) : string := "[object Object]".
Definition Number_of (v : Api.value) : option Z := None.
Definition basename (path : string) : string := path.

(** A token pair that lives an hour and the one that replaces it. *)
Definition tokens : DigitalFactory.TokenResponse :=
  {| DigitalFactory.access_token := "access-1";
     DigitalFactory.expires_in := 3600;
     DigitalFactory.refresh_token := "refresh-1";
     DigitalFactory.scope := "";
     DigitalFactory.token_type := "Bearer" |}.
Definition tokens_after : DigitalFactory.TokenResponse :=
  {| DigitalFactory.access_token := "access-2";
     DigitalFactory.expires_in := 3600;
     DigitalFactory.refresh_token := "refresh-2";
     DigitalFactory.scope := "";
     DigitalFactory.token_type := "Bearer" |}.

(** What the identity provider answers when it refuses a refresh token. *)
Definition invalid_grant : Api.value :=
  Api.Obj [ ("error", Api.Str "invalid_grant");
            ("error_description", Api.Str "Token is not active") ].

(** The object after a sign-in that was answered at time 0. *)
Definition signed_in : Api.DigitalFactoryDemo :=
  (Api._handleRequest_resume prettyJSON String_of
     (Api.of_signIn Sample.signing_in 0) 0 (Normal (Api.of_TokenResponse tokens))).1.1.

(** Checks of the token: ten minutes after the sign-in; an hour after it,
    when the refresh succeeds, when the request fails, when the refresh
    token is refused, and when the answer is [null]. *)
Definition after_ten_minutes : Api.Refresh :=
  {| Api.now := 600000;
     Api.refreshed := Normal (Api.of_TokenResponse tokens_after);
     Api.now_refreshed := 600200 |}.
Definition after_an_hour : Api.Refresh :=
  {| Api.now := 3600000;
     Api.refreshed := Normal (Api.of_TokenResponse tokens_after);
     Api.now_refreshed := 3600200 |}.
Definition after_an_hour_offline : Api.Refresh :=
  {| Api.now := 3600000;
     Api.refreshed := Throw "FetchError: ETIMEDOUT";
     Api.now_refreshed := 3600200 |}.
Definition after_an_hour_refused : Api.Refresh :=
  {| Api.now := 3600000;
     Api.refreshed := Normal invalid_grant;
     Api.now_refreshed := 3600200 |}.
Definition after_an_hour_null : Api.Refresh :=
  {| Api.now := 3600000;
     Api.refreshed := Normal Api.Null;
     Api.now_refreshed := 3600200 |}.

(** Answers of the API: to the upload request, and an error. *)
Definition upload_response : Api.value :=
  Api.Obj [("data", Api.Obj [ ("job_id", Api.Str "job-1");
                             ("upload_url", Api.Str "https://storage.example/job-1") ])].
Definition error_response : Api.value :=
  Api.Obj [("errors", Api.Arr [Api.Obj [("code", Api.Str "forbidden")]])].

End SampleApi.

(** * Properties *)

(** ** Runs on sample inputs *)

(** A cluster ID that occurs twice is counted once, and the order of
    [appeared] and [gone] is the order of first occurrence. *)
Example compareResults_sample :
  let cluster id online :=
    {| Monitor.cluster_id := id; Monitor.is_online := online |} in
  Monitor.compareResults Sample.toISOString
    [cluster "p1" true; cluster "p2" false; cluster "p3" true; cluster "p5" true]
    [cluster "p2" true; cluster "p1" true; cluster "p2" true; cluster "p4" false;
     cluster "p6" true]
    0
  = {| Monitor.dateTime := "2021-06-01T10:00:00.000Z";
       Monitor.appeared := ["p2"; "p6"];
       Monitor.gone := ["p3"; "p5"];
       Monitor.onlineCount := 3;
       Monitor.offlineCount := 2 |}.
Proof. reflexivity. Qed.

Example csvLine_sample :
  Monitor.csvLine
    {| Monitor.dateTime := "2021-06-01T10:00:00.000Z";
       Monitor.appeared := ["p2"; "p6"];
       Monitor.gone := [];
       Monitor.onlineCount := 3;
       Monitor.offlineCount := 2 |} ";"
  = "2021-06-01T10:00:00.000Z;p2,p6;;3;2".
Proof. reflexivity. Qed.

Example sort_sample :
  Monitor.sort (λ a b, Monitor.compareCharCodes b a) ["b.json"; "a.json"; "c.json"]
  = ["c.json"; "b.json"; "a.json"].
Proof. reflexivity. Qed.

(** Of two timestamped snapshots the later one is read, whether the names
    are compared by character codes or letters first. *)
Example getPreviousClusterStatus_sample :
  Monitor.getPreviousClusterStatus Monitor.compareCharCodes Sample.JSON_parse Sample.mkdir
    Sample.two_snapshots "logs"
  = (Sample.two_snapshots, Normal (Monitor.Clusters [Sample.printer1]))
  ∧ Monitor.getPreviousClusterStatus Sample.localeCompare Sample.JSON_parse Sample.mkdir
      Sample.two_snapshots "logs"
    = (Sample.two_snapshots, Normal (Monitor.Clusters [Sample.printer1])).
Proof. split; reflexivity. Qed.

(** A failing fetch, a pass that succeeds, and a pass whose answer holds no
    cluster list and during which SIGINT arrives. *)
Example monitor_script_sample :
  Monitor.script Sample.toISOString Monitor.compareCharCodes Sample.JSON_parse Sample.mkdir
    Sample.prettyJSON_clusters Sample.prettyJSON_comparison Sample.no_options
    {| Monitor.signIn_result := Normal tt;
       Monitor.fileSystem := Sample.no_snapshots;
       Monitor.sigint_before_loop := false;
       Monitor.ticks :=
         [ Sample.tick_error; Sample.tick_ok;
           {| Monitor.getClusters_result := Normal None;
              Monitor.new_Date := 0;
              Monitor.writeFile_result := Normal tt;
              Monitor.sigint_before_wait := true;
              Monitor.sigint_during_wait := false |} ];
       Monitor.stream_error := None |}
  = [ Monitor.ProcessOnSigint; Monitor.SignIn;
      Monitor.Print ["Sign in completed." +:+ LF];
      Monitor.CreateWriteStream "../cluster-monitoring-logs/cluster-monitoring.csv";
      Monitor.Print ["Retrieving clusters..."]; Monitor.GetClusters;
      Monitor.Print ["An error occured while fetching cluster data: ";
                     "FetchError: ETIMEDOUT"];
      Monitor.SetTimeout 60000;
      Monitor.Print ["Retrieving clusters..."]; Monitor.GetClusters;
      Monitor.WriteFile
        "../cluster-monitoring-logs/2021-06-01T10-00-00.000Z-clusters.json"
        "[printer-1,printer-2]" true;
      Monitor.Print ["Found 2 clusters" +:+ LF];
      Monitor.SetTimeout 60000;
      Monitor.Print ["Retrieving clusters..."]; Monitor.GetClusters;
      Monitor.StreamEnd; Monitor.ProcessExit 0 ].
Proof. reflexivity. Qed.

(** Two redirects that arrive before the first token request is answered
    both pass the checks: the state and the verifier are reset only when a
    listener is resumed. A redirect that arrives after that is ignored. *)
Example serve_overlapping_sample :
  length
    (DigitalFactory.token_requests
       (DigitalFactory.serve None None Sample.new_URL Sample.prettyJSON
          Sample.signing_in 0
          [ DigitalFactory.Request Sample.callback;
            DigitalFactory.Request Sample.callback;
            DigitalFactory.Answer (Normal Sample.tokens);
            DigitalFactory.Answer (Normal Sample.tokens);
            DigitalFactory.Request Sample.callback ]).2)
  = 2%nat.
Proof. reflexivity. Qed.

(** ** [Set<string>]: membership, absence of duplicates, size *)

Lemma elem_of_JsSet_add s x y : y ∈ JsSet.add s x ↔ y ∈ s ∨ y = x.
Proof.
  unfold JsSet.add, JsSet.has. case_bool_decide as Hx.
  - split; [auto|]. intros [?| ->]; done.
  - rewrite elem_of_app, list_elem_of_singleton. done.
Qed.

Lemma NoDup_JsSet_add s x : NoDup s → NoDup (JsSet.add s x).
Proof.
  intros Hs. unfold JsSet.add, JsSet.has. case_bool_decide as Hx; [done|].
  apply NoDup_app. split_and!; [done| |apply NoDup_singleton].
  intros y Hy ->%list_elem_of_singleton. done.
Qed.

Lemma elem_of_foldl_JsSet_add l acc y : y ∈ foldl JsSet.add acc l ↔ y ∈ acc ∨ y ∈ l.
Proof.
  revert acc. induction l as [|x l IH]; intros acc; simpl.
  - rewrite elem_of_nil. tauto.
  - rewrite IH, elem_of_JsSet_add, elem_of_cons. tauto.
Qed.

Lemma NoDup_foldl_JsSet_add l acc : NoDup acc → NoDup (foldl JsSet.add acc l).
Proof.
  revert acc. induction l as [|x l IH]; intros acc Hacc; simpl; [done|].
  apply IH, NoDup_JsSet_add, Hacc.
Qed.

Lemma elem_of_JsSet_new l y : y ∈ JsSet.new l ↔ y ∈ l.
Proof. unfold JsSet.new. rewrite elem_of_foldl_JsSet_add, elem_of_nil. tauto. Qed.

Lemma NoDup_JsSet_new l : NoDup (JsSet.new l).
Proof. apply NoDup_foldl_JsSet_add, NoDup_nil_2. Qed.

Lemma JsSet_has_new l y : JsSet.has (JsSet.new l) y = bool_decide (y ∈ l).
Proof. unfold JsSet.has. apply bool_decide_ext, elem_of_JsSet_new. Qed.

Lemma JsSet_new_to_gset l : list_to_set (JsSet.new l) =@{gset string} list_to_set l.
Proof. apply set_eq. intros y. rewrite !elem_of_list_to_set. apply elem_of_JsSet_new. Qed.

Lemma JsSet_size_new l : JsSet.size (JsSet.new l) = Z.of_nat (base.size (list_to_set l : gset string)).
Proof.
  unfold JsSet.size. rewrite <- JsSet_new_to_gset.
  rewrite size_list_to_set by apply NoDup_JsSet_new. done.
Qed.

Lemma JsSet_length_new_le l : (length (JsSet.new l) ≤ length l)%nat.
Proof.
  apply submseteq_length, NoDup_submseteq; [apply NoDup_JsSet_new|].
  intros y. apply elem_of_JsSet_new.
Qed.


(** ** [compareResults] *)
Section CompareResults.

Import Monitor.

Variable toISOString : Z → string.

Lemma elem_of_getOnlineClusterIds clusters id :
  id ∈ getOnlineClusterIds clusters ↔ online clusters id.
Proof.
  unfold getOnlineClusterIds, online.
  rewrite elem_of_JsSet_new, list_elem_of_fmap. split.
  - intros (cluster & -> & [Hon Hin]%list_elem_of_filter). eauto.
  - intros (cluster & Hin & Hon & <-).
    exists cluster. split; [done|]. by apply list_elem_of_filter.
Qed.

Lemma has_getOnlineClusterIds_false clusters id :
  JsSet.has (getOnlineClusterIds clusters) id = false ↔ ¬ online clusters id.
Proof.
  unfold JsSet.has. rewrite bool_decide_eq_false.
  by rewrite elem_of_getOnlineClusterIds.
Qed.

Lemma getOnlineClusterIds_to_gset clusters :
  list_to_set (getOnlineClusterIds clusters) = onlineIdSet clusters.
Proof. apply JsSet_new_to_gset. Qed.

Lemma filter_has_self (s : list string) :
  filter (λ id, JsSet.has s id = false) s = [].
Proof.
  apply elem_of_nil_inv. intros id [Hhas Hin]%list_elem_of_filter.
  unfold JsSet.has in Hhas. by apply bool_decide_eq_false in Hhas.
Qed.

(** C1: [appeared] holds exactly the IDs that are online in [current] and
    not online in [previous], [gone] exactly those online in [previous] and
    not online in [current]; as sets they are the two set differences of
    the online IDs, and neither list repeats an ID. *)
Theorem compareResults_set_difference previous current dateTime :
  let comparison := compareResults toISOString previous current dateTime in
  (∀ id, id ∈ appeared comparison ↔ online current id ∧ ¬ online previous id)
  ∧ (∀ id, id ∈ gone comparison ↔ online previous id ∧ ¬ online current id)
  ∧ list_to_set (appeared comparison) = onlineIdSet current ∖ onlineIdSet previous
  ∧ list_to_set (gone comparison) = onlineIdSet previous ∖ onlineIdSet current
  ∧ NoDup (appeared comparison) ∧ NoDup (gone comparison).
Proof.
  cbn. unfold JsSet.spread.
  assert (Hmem : ∀ a b id,
    id ∈ filter (λ id, JsSet.has (getOnlineClusterIds a) id = false)
           (getOnlineClusterIds b)
    ↔ online b id ∧ ¬ online a id).
  { intros a b id.
    rewrite list_elem_of_filter, has_getOnlineClusterIds_false,
      elem_of_getOnlineClusterIds. tauto. }
  assert (Hset : ∀ a b,
    list_to_set (filter (λ id, JsSet.has (getOnlineClusterIds a) id = false)
                   (getOnlineClusterIds b))
    = onlineIdSet b ∖ onlineIdSet a).
  { intros a b. apply set_eq. intros id.
    rewrite elem_of_list_to_set, Hmem, elem_of_difference.
    rewrite <- !getOnlineClusterIds_to_gset, !elem_of_list_to_set,
      !elem_of_getOnlineClusterIds. done. }
  split_and!; auto; apply NoDup_filter, NoDup_JsSet_new.
Qed.

(** C8: what appeared from [a] to [b] is what is gone from [b] to [a], as
    the same list; a list compared with itself has nothing appeared and
    nothing gone. *)
Theorem compareResults_appeared_gone_swap a b t :
  appeared (compareResults toISOString a b t) = gone (compareResults toISOString b a t)
  ∧ appeared (compareResults toISOString a a t) = []
  ∧ gone (compareResults toISOString a a t) = [].
Proof.
  cbn. unfold JsSet.spread. split_and!; [done|apply filter_has_self..].
Qed.

(** C9: [onlineCount] is the number of distinct cluster IDs among the
    online entries of [current], [offlineCount] is the length of [current]
    minus that number, and the two add up to the length. *)
Theorem compareResults_counts previous current dateTime :
  let comparison := compareResults toISOString previous current dateTime in
  onlineCount comparison = Z.of_nat (size (onlineIdSet current))
  ∧ offlineCount comparison
    = Z.of_nat (length current) - Z.of_nat (size (onlineIdSet current))
  ∧ onlineCount comparison + offlineCount comparison = Z.of_nat (length current).
Proof.
  cbn. unfold getOnlineClusterIds. rewrite JsSet_size_new.
  fold (onlineIdSet current). lia.
Qed.

End CompareResults.

(** ** [Array.prototype.sort] *)
Section Sort.

Import Monitor.

Context {A : Type} (comparefn : A → A → Z).

Lemma sort_insert_Permutation x l : sort_insert comparefn x l ≡ₚ x :: l.
Proof.
  induction l as [|y l IH]; simpl; [done|].
  destruct (comparefn x y <=? 0); [done|].
  rewrite IH. apply Permutation_swap.
Qed.

Lemma sort_Permutation l : sort comparefn l ≡ₚ l.
Proof.
  induction l as [|x l IH]; simpl; [done|].
  by rewrite sort_insert_Permutation, IH.
Qed.

(** A comparator is consistent when it never puts two elements after each
    other and is transitive. *)
Hypothesis comparefn_total : ∀ a b, 0 < comparefn a b → comparefn b a ≤ 0.
Hypothesis comparefn_trans :
  ∀ a b c, comparefn a b ≤ 0 → comparefn b c ≤ 0 → comparefn a c ≤ 0.

Lemma comparefn_refl a : comparefn a a ≤ 0.
Proof. destruct (Z_lt_le_dec 0 (comparefn a a)); auto. Qed.

(** The first element of the sorted array is one that nothing sorts before. *)
Lemma head_sort l :
  match head (sort comparefn l) with
  | None => l = []
  | Some first => first ∈ l ∧ ∀ y, y ∈ l → comparefn first y ≤ 0
  end.
Proof.
  induction l as [|x l IH]; simpl; [done|].
  destruct (sort comparefn l) as [|h sorted] eqn:Hsorted; simpl in *.
  - subst l. split; [left|]. intros y ->%list_elem_of_singleton.
    apply comparefn_refl.
  - destruct IH as [Hin Hle]. destruct (Z.leb_spec (comparefn x h) 0); simpl.
    + split; [left|]. intros y [->|Hy]%elem_of_cons; [apply comparefn_refl|].
      eapply comparefn_trans; eauto.
    + split; [by right|]. intros y [->|Hy]%elem_of_cons; auto.
Qed.

End Sort.

(** ** [getPreviousClusterStatus] *)

Lemma compareCharCodes_le a b :
  Monitor.compareCharCodes a b ≤ 0 ↔ String.le a b.
Proof.
  unfold Monitor.compareCharCodes, String.le, String.leb.
  destruct (String.compare a b); simpl; intuition lia.
Qed.

Lemma compareCharCodes_total a b :
  0 < Monitor.compareCharCodes a b → Monitor.compareCharCodes b a ≤ 0.
Proof.
  intros Hab. apply compareCharCodes_le.
  destruct (total String.le a b) as [Hle|Hle]; [|done].
  apply compareCharCodes_le in Hle. lia.
Qed.

Lemma compareCharCodes_trans a b c :
  Monitor.compareCharCodes a b ≤ 0 → Monitor.compareCharCodes b c ≤ 0 →
  Monitor.compareCharCodes a c ≤ 0.
Proof. rewrite !compareCharCodes_le. apply transitivity. Qed.

(** A name that passed the filter is not empty, hence truthy. *)
Lemma endsWith_json_nonempty file :
  Monitor.endsWith file ".json" = true → file ≠ "".
Proof. by intros Hjson ->. Qed.

Section PreviousClusterStatus.

Import Monitor.

Variable localeCompare : string → string → Z.
Variable JSON_parse : string → completion snapshot.
Variable mkdir : FileSystem → string → gmap string (list string) * completion unit.

Local Abbreviation getPreviousClusterStatus :=
  (getPreviousClusterStatus localeCompare JSON_parse mkdir).

(** [localeCompare] is a consistent comparator: it never puts two strings
    after each other, and it is transitive. *)
Hypothesis localeCompare_total :
  ∀ a b, 0 < localeCompare a b → localeCompare b a ≤ 0.
Hypothesis localeCompare_trans :
  ∀ a b c, localeCompare a b ≤ 0 → localeCompare b c ≤ 0 → localeCompare a c ≤ 0.

(** C10, as the function has it. When nothing exists at [statusDir],
    [getPreviousClusterStatus] calls [mkdir] and returns [null] if the
    directory could be made, and rejects with the error of [mkdir] if not;
    the file system is then as [mkdir] left it. When [statusDir] is there
    but is no directory, it rejects. When the directory has no file whose
    name ends in ['.json'], it returns the falsy [undefined]. Otherwise it
    returns [JSON.parse] of the contents of the ['.json'] file whose name is
    greatest in the order of [localeCompare], the order in which the names
    are sorted, or rejects if that file cannot be read; that name is the
    greatest by character codes whenever [localeCompare] orders the names
    of the directory as their character codes do. *)
Theorem getPreviousClusterStatus_cases fs statusDir :
  (existsSync fs statusDir = false →
     getPreviousClusterStatus fs statusDir
       = ({| dirs := (mkdir fs statusDir).1; files := files fs |},
          match (mkdir fs statusDir).2 with
          | Normal _ => Normal Null
          | Throw e => Throw e
          end))
  ∧ (existsSync fs statusDir = true → dirs fs !! statusDir = None →
       ∃ e, getPreviousClusterStatus fs statusDir = (fs, Throw e))
  ∧ (∀ names, dirs fs !! statusDir = Some names →
       (∀ file, file ∈ names → endsWith file ".json" = false) →
       getPreviousClusterStatus fs statusDir = (fs, Normal Undefined)
       ∧ truthy Undefined = false)
  ∧ (∀ names, dirs fs !! statusDir = Some names →
       (∃ file, file ∈ names ∧ endsWith file ".json" = true) →
       ∃ lastFile,
         lastFile ∈ names ∧ endsWith lastFile ".json" = true
         ∧ (∀ file, file ∈ names → endsWith file ".json" = true →
              localeCompare file lastFile ≤ 0)
         ∧ ((∀ a b, a ∈ names → b ∈ names →
               localeCompare a b ≤ 0 → compareCharCodes a b ≤ 0) →
            ∀ file, file ∈ names → endsWith file ".json" = true →
              (file ≤ lastFile)%string)
         ∧ getPreviousClusterStatus fs statusDir
           = (fs, match readFile fs (statusDir +:+ "/" +:+ lastFile) with
                  | Normal data => JSON_parse data
                  | Throw e => Throw e
                  end)).
Proof.
  unfold Monitor.getPreviousClusterStatus. split_and!.
  - intros Hnone. rewrite Hnone. simpl. by destruct (mkdir fs statusDir).
  - intros -> Hdir. simpl. unfold readdir. rewrite Hdir. by eexists.
  - intros names Hdir Hnojson.
    assert (existsSync fs statusDir = true) as ->.
    { apply bool_decide_eq_true. left. eauto. }
    simpl. unfold readdir. rewrite Hdir.
    assert (filter (λ file, endsWith file ".json" = true) names = []) as ->.
    { apply elem_of_nil_inv. intros file [Hjson Hin]%list_elem_of_filter.
      rewrite (Hnojson file Hin) in Hjson. done. }
    done.
  - intros names Hdir (file & Hin & Hjson).
    assert (existsSync fs statusDir = true) as ->.
    { apply bool_decide_eq_true. left. eauto. }
    simpl. unfold readdir. rewrite Hdir.
    pose proof (head_sort (λ a b, localeCompare b a)
      (λ a b, localeCompare_total b a)
      (λ a b c Hab Hbc, localeCompare_trans c b a Hbc Hab)
      (filter (λ file, endsWith file ".json" = true) names)) as Hhead.
    destruct (head (sort _ _)) as [lastFile|].
    + destruct Hhead as [[Hlast_json Hlast_in]%list_elem_of_filter Hgreatest].
      assert (∀ file', file' ∈ names → endsWith file' ".json" = true →
                localeCompare file' lastFile ≤ 0) as Hlast.
      { intros file' Hin' Hjson'. apply Hgreatest. by apply list_elem_of_filter. }
      exists lastFile. split_and!; [done..| |].
      * intros Hagree file' Hin' Hjson'.
        apply compareCharCodes_le, Hagree; auto.
      * by destruct (readFile fs _).
    + assert (file ∈ filter (λ file, endsWith file ".json" = true) names) as Hfile
        by by apply list_elem_of_filter.
      rewrite Hhead in Hfile. by apply elem_of_nil in Hfile.
Qed.

End PreviousClusterStatus.

(** A machine without status directory, the empty path, a status directory
    without snapshots, and one with two snapshots and a file of another
    kind. *)
Example getPreviousClusterStatus_cases_witness :
  (Monitor.getPreviousClusterStatus Monitor.compareCharCodes Sample.JSON_parse
     Sample.mkdir Sample.no_status_dir "logs").2 = Normal Monitor.Null
  ∧ (Monitor.getPreviousClusterStatus Monitor.compareCharCodes Sample.JSON_parse
       Sample.mkdir Sample.no_status_dir "").2
    = Throw "ENOENT: no such file or directory, mkdir ''"
  ∧ (Monitor.getPreviousClusterStatus Monitor.compareCharCodes Sample.JSON_parse
       Sample.mkdir Sample.no_snapshots "logs").2 = Normal Monitor.Undefined
  ∧ ∃ lastFile,
      lastFile ∈ Sample.status_names
      ∧ (∀ file, file ∈ Sample.status_names →
           Monitor.endsWith file ".json" = true → (file ≤ lastFile)%string)
      ∧ Monitor.getPreviousClusterStatus Monitor.compareCharCodes Sample.JSON_parse
          Sample.mkdir Sample.two_snapshots "logs"
        = (Sample.two_snapshots,
           match Monitor.readFile Sample.two_snapshots ("logs" +:+ "/" +:+ lastFile) with
           | Normal data => Sample.JSON_parse data
           | Throw e => Throw e
           end).
Proof.
  pose proof (getPreviousClusterStatus_cases Monitor.compareCharCodes Sample.JSON_parse
                Sample.mkdir compareCharCodes_total compareCharCodes_trans) as Hcases.
  split_and!.
  - destruct (Hcases Sample.no_status_dir "logs") as (-> & _); reflexivity.
  - destruct (Hcases Sample.no_status_dir "") as (-> & _); reflexivity.
  - destruct (Hcases Sample.no_snapshots "logs") as (_ & _ & Hnone & _).
    destruct (Hnone ["readme.txt"]) as [-> _]; [reflexivity| |reflexivity].
    by intros file ->%list_elem_of_singleton.
  - destruct (Hcases Sample.two_snapshots "logs") as (_ & _ & _ & Hsome).
    destruct (Hsome Sample.status_names) as (lastFile & Hin & _ & _ & Hgreatest & Hrun).
    + reflexivity.
    + exists "2021-06-01T10-00-00.000Z-clusters.json". split; [left|reflexivity].
    + exists lastFile. split_and!; [done| |done]. by apply Hgreatest.
Defined.

(** C10 fails as stated: the names are sorted by [localeCompare] and not by
    their character codes. Of [a.json] and [B.json] the greatest by
    character codes is [a.json], but the collation puts [B.json] last, and
    it is [B.json] that is read. *)
Example latest_by_collation_not_by_character_codes :
  (∀ file, file ∈ ["a.json"; "B.json"] → (file ≤ "a.json")%string)
  ∧ Monitor.readFile Sample.named_by_hand "logs/a.json" = Normal "[printer-1]"
  ∧ (Monitor.getPreviousClusterStatus Sample.localeCompare Sample.JSON_parse Sample.mkdir
       Sample.named_by_hand "logs").2
    = Sample.JSON_parse "[]"
  ∧ (Monitor.getPreviousClusterStatus Sample.localeCompare Sample.JSON_parse Sample.mkdir
       Sample.named_by_hand "logs").2
    ≠ Sample.JSON_parse "[printer-1]".
Proof.
  split_and!.
  - intros file [->|[->|[]%elem_of_nil]%elem_of_cons]%elem_of_cons; by vm_compute.
  - reflexivity.
  - reflexivity.
  - vm_compute. discriminate.
Qed.

(** ** The monitor loop *)
Section MonitorLoop.

Import Monitor.

Variable toISOString : Z → string.
Variable localeCompare : string → string → Z.
Variable JSON_parse : string → completion snapshot.
Variable mkdir : FileSystem → string → gmap string (list string) * completion unit.
Variable prettyJSON_clusters : list ClusterResponse → string.
Variable prettyJSON_comparison : Comparison → string.

Local Abbreviation tryBlock := (tryBlock toISOString prettyJSON_clusters prettyJSON_comparison).
Local Abbreviation iteration := (iteration toISOString prettyJSON_clusters prettyJSON_comparison).
Local Abbreviation loop := (loop toISOString prettyJSON_clusters prettyJSON_comparison).
Local Abbreviation monitorClusters :=
  (monitorClusters toISOString localeCompare JSON_parse mkdir
     prettyJSON_clusters prettyJSON_comparison).

Lemma count_app kind events events' :
  count kind (events ++ events') = (count kind events + count kind events')%nat.
Proof. unfold count. by rewrite filter_app, length_app. Qed.

Lemma count_cons kind e events :
  count kind (e :: events)
  = ((if kind e then 1 else 0) + count kind events)%nat.
Proof.
  unfold count. rewrite filter_cons.
  destruct (kind e); by case_decide.
Qed.

Lemma count_nil kind : count kind [] = 0%nat.
Proof. done. Qed.

Ltac count_events :=
  repeat (rewrite count_cons || rewrite count_app || rewrite count_nil); simpl.

(** The wait writes nothing and fetches nothing. *)
Lemma count_awaitAsync kind waitMS t :
  kind (SetTimeout waitMS) = false →
  kind (Print ["Aborting the monitoring..."]) = false →
  count kind (awaitAsync waitMS t) = 0%nat.
Proof.
  intros Htimeout Hprint. unfold awaitAsync.
  rewrite count_cons, Htimeout.
  destruct (negb _ && _); [by rewrite count_cons, Hprint|done].
Qed.

(** The loop, one pass at a time. *)
Lemma loop_aborted statusDir waitMS previous ticks :
  loop statusDir waitMS true previous ticks = ([], previous, true).
Proof. by destruct ticks. Qed.

Lemma loop_step statusDir waitMS previous t ticks :
  loop statusDir waitMS false previous (t :: ticks)
  = let '(events', previous'', exited) :=
      loop statusDir waitMS (sigint t)
        (iteration statusDir waitMS previous t).2 ticks in
    ((iteration statusDir waitMS previous t).1 ++ events', previous'', exited).
Proof. simpl. by destruct (iteration statusDir waitMS previous t). Qed.

(** Every pass fetches the cluster list once. *)
Lemma count_fetch_iteration statusDir waitMS previous t :
  count is_fetch (iteration statusDir waitMS previous t).1 = 1%nat.
Proof.
  unfold iteration, Monitor.tryBlock.
  destruct (getClusters_result t) as [[clusters|]|ex]; simpl.
  - destruct (writeFile_result t); simpl;
      rewrite !count_cons; simpl; rewrite ?count_app, ?count_cons; simpl.
    + destruct previous; simpl; rewrite ?count_cons, ?count_nil; simpl;
        by rewrite count_awaitAsync.
    + by rewrite count_awaitAsync.
  - by rewrite !count_cons.
  - rewrite !count_cons; simpl. by rewrite count_awaitAsync.
Qed.

(** No pass signs in. *)
Lemma count_signIn_iteration statusDir waitMS previous t :
  count is_signIn (iteration statusDir waitMS previous t).1 = 0%nat.
Proof.
  unfold iteration, Monitor.tryBlock.
  destruct (getClusters_result t) as [[clusters|]|ex]; simpl.
  - destruct (writeFile_result t); simpl;
      rewrite !count_cons; simpl; rewrite ?count_app, ?count_cons; simpl.
    + destruct previous; simpl; rewrite ?count_cons, ?count_nil; simpl;
        by rewrite count_awaitAsync.
    + by rewrite count_awaitAsync.
  - by rewrite !count_cons.
  - rewrite !count_cons; simpl. by rewrite count_awaitAsync.
Qed.

Lemma count_signIn_loop statusDir waitMS aborted previous ticks :
  count is_signIn (loop statusDir waitMS aborted previous ticks).1.1 = 0%nat.
Proof.
  revert aborted previous.
  induction ticks as [|t ticks IH]; intros [] previous;
    rewrite ?loop_aborted; try done.
  rewrite loop_step.
  specialize (IH (sigint t) (iteration statusDir waitMS previous t).2).
  destruct (loop _ _ _ _ ticks) as [[events' previous''] exited]. simpl in *.
  by rewrite count_app, count_signIn_iteration, IH.
Qed.

(** Without a SIGINT the loop goes through every pass it is given answers
    for, and is still running afterwards. *)
Lemma loop_not_interrupted statusDir waitMS previous ticks :
  Forall (λ t, sigint t = false) ticks →
  ∃ events previous',
    loop statusDir waitMS false previous ticks = (events, previous', false)
    ∧ count is_fetch events = length ticks.
Proof.
  intros Hticks. revert previous.
  induction Hticks as [|t ticks Ht _ IH]; intros previous.
  - by exists [], previous.
  - rewrite loop_step, Ht.
    destruct (IH (iteration statusDir waitMS previous t).2)
      as (events' & previous'' & -> & Hcount).
    eexists _, _. split; [done|].
    rewrite count_app, count_fetch_iteration, Hcount. done.
Qed.

(** The pass during which SIGINT arrives is the last one. *)
Lemma loop_interrupted statusDir waitMS previous ticks t ticks' :
  Forall (λ t, sigint t = false) ticks → sigint t = true →
  ∃ events previous',
    loop statusDir waitMS false previous (ticks ++ t :: ticks')
      = (events, previous', true)
    ∧ count is_fetch events = S (length ticks).
Proof.
  intros Hticks Ht. revert previous.
  induction Hticks as [|t0 ticks Ht0 _ IH]; intros previous; simpl app.
  - rewrite loop_step, Ht, loop_aborted.
    eexists _, _. split; [done|].
    by rewrite app_nil_r, count_fetch_iteration.
  - rewrite loop_step, Ht0.
    destruct (IH (iteration statusDir waitMS previous t0).2)
      as (events' & previous'' & -> & Hcount).
    eexists _, _. split; [done|].
    rewrite count_app, count_fetch_iteration, Hcount. done.
Qed.

(** Sign-in happens once, before anything else the monitor does. *)
(** The events until the stream fails are among the events of the loop. *)
Lemma until_await_prefix n events before :
  until_await n events = Some before → before `prefix_of` events.
Proof.
  revert n before. induction events as [|e events IH]; intros n before; [done|].
  simpl. destruct (is_await e), n as [|n]; simpl.
  - intros [= <-]. by exists events.
  - destruct (until_await n events) as [before'|] eqn:Hcut; [|done].
    intros [= <-]. by apply prefix_cons, (IH n).
  - destruct (until_await 0 events) as [before'|] eqn:Hcut; [|done].
    intros [= <-]. by apply prefix_cons, (IH 0%nat).
  - destruct (until_await (S n) events) as [before'|] eqn:Hcut; [|done].
    intros [= <-]. by apply prefix_cons, (IH (S n)).
Qed.

Lemma stream_fails_Some w events before error :
  stream_fails w events = Some (before, error) ↔
  ∃ n, stream_error w = Some (n, error) ∧ until_await n events = Some before.
Proof.
  unfold stream_fails. destruct (stream_error w) as [[n error']|]; simpl.
  - destruct (until_await n events) as [before'|] eqn:Hcut; simpl.
    + split; [intros [= <- <-]; eauto|]. intros (n' & [= <- <-] & Hcut').
      rewrite Hcut in Hcut'. by injection Hcut' as <-.
    + split; [done|]. intros (n' & [= <- <-] & Hcut'). by rewrite Hcut in Hcut'.
  - split; [done|]. by intros (n & ? & _).
Qed.

Lemma stream_fails_prefix w events before error :
  stream_fails w events = Some (before, error) → before `prefix_of` events.
Proof. intros (n & _ & Hcut)%stream_fails_Some. by apply (until_await_prefix n). Qed.

Lemma count_prefix kind events events' :
  events `prefix_of` events' → (count kind events ≤ count kind events')%nat.
Proof. intros [rest ->]. rewrite count_app. lia. Qed.

(** Sign-in happens once, before anything else the monitor does. *)
Lemma monitorClusters_signIn_once options w :
  ∃ events,
    (monitorClusters options w).1.1 = [ProcessOnSigint; SignIn] ++ events
    ∧ count is_signIn events = 0%nat.
Proof.
  unfold Monitor.monitorClusters.
  destruct (signIn_result w); [|by exists []].
  destruct (getPreviousClusterStatus _ _ _ _ _) as [fs [previous|e]];
    [|by eexists].
  pose proof (count_signIn_loop
    (default "../cluster-monitoring-logs" (statusDir options))
    (default 60000 (waitMS options)) (sigint_before_loop w) previous (ticks w))
    as Hloop.
  destruct (loop _ _ _ _ _) as [[events previous'] exited]. simpl in Hloop.
  destruct (stream_fails w events) as [[before error]|] eqn:Hfails.
  - apply stream_fails_prefix in Hfails as Hprefix.
    apply (count_prefix is_signIn) in Hprefix.
    eexists. split; [done|]. simpl.
    rewrite !count_cons, !count_app, count_cons, count_nil. simpl. lia.
  - eexists. split; [done|]. simpl.
    rewrite !count_cons, count_app, Hloop. simpl. by destruct exited.
Qed.

(** C5: when fetching the cluster data throws, the error is caught and
    printed, the pass ends with the wait, no snapshot is written and no CSV
    row appended, [previous] stays as it was, and the loop goes on with the
    next pass (unless SIGINT arrived in the meantime). *)
Theorem fetch_error_caught statusDir waitMS previous t ticks ex :
  getClusters_result t = Throw ex →
  (iteration statusDir waitMS previous t).1
    = [ Print ["Retrieving clusters..."]; GetClusters;
        Print ["An error occured while fetching cluster data: "; ex] ]
      ++ awaitAsync waitMS t
  ∧ (iteration statusDir waitMS previous t).2 = previous
  ∧ count is_writeFile (iteration statusDir waitMS previous t).1 = 0%nat
  ∧ count is_csvRow (iteration statusDir waitMS previous t).1 = 0%nat
  ∧ loop statusDir waitMS false previous (t :: ticks)
    = let '(events', previous', exited) :=
        loop statusDir waitMS (sigint t) previous ticks in
      ((iteration statusDir waitMS previous t).1 ++ events', previous', exited).
Proof.
  intros Hthrow.
  assert (iteration statusDir waitMS previous t
          = ([ Print ["Retrieving clusters..."]; GetClusters;
               Print ["An error occured while fetching cluster data: "; ex] ]
             ++ awaitAsync waitMS t, previous)) as Hiter.
  { unfold Monitor.iteration, Monitor.tryBlock. by rewrite Hthrow. }
  rewrite loop_step, Hiter. simpl fst. simpl snd.
  split_and!; [done..| | |done];
    simpl; rewrite !count_cons; by rewrite count_awaitAsync.
Qed.

(** C6, as the loop has it: a pass in which the fetch returns a cluster list
    and the snapshot is written writes that one JSON snapshot, then appends
    one CSV row if there is a previous snapshot and none if there is not,
    then waits; the passes repeat for as long as no SIGINT arrives and the
    pass during which it arrives is the last; the monitor signs in once,
    before the loop. *)
Theorem monitor_pass_writes_then_waits :
  (∀ statusDir waitMS previous t clusters,
     getClusters_result t = Normal (Some clusters) →
     writeFile_result t = Normal tt →
     ∃ logFile rows,
       (iteration statusDir waitMS previous t).1
         = [ Print ["Retrieving clusters..."]; GetClusters;
             WriteFile logFile (prettyJSON_clusters clusters) true;
             Print ["Found " +:+ pretty (length clusters) +:+ " clusters" +:+ LF] ]
           ++ rows ++ awaitAsync waitMS t
       ∧ rows = match previous with
                | Clusters previous =>
                    let comparison :=
                      compareResults toISOString previous clusters (new_Date t) in
                    [ StreamWrite (csvLine comparison ";" +:+ LF);
                      Print ["Comparison resulted in "
                             +:+ prettyJSON_comparison comparison +:+ LF] ]
                | Null | Undefined => []
                end
       ∧ head (awaitAsync waitMS t) = Some (SetTimeout waitMS)
       ∧ count is_snapshot (iteration statusDir waitMS previous t).1 = 1%nat
       ∧ count is_csvRow (iteration statusDir waitMS previous t).1
         = (if truthy previous then 1 else 0)%nat
       ∧ (iteration statusDir waitMS previous t).2 = Clusters clusters)
  ∧ (∀ statusDir waitMS previous ticks,
       Forall (λ t, sigint t = false) ticks →
       ∃ events previous',
         loop statusDir waitMS false previous ticks = (events, previous', false)
         ∧ count is_fetch events = length ticks)
  ∧ (∀ statusDir waitMS previous ticks t ticks',
       Forall (λ t, sigint t = false) ticks → sigint t = true →
       ∃ events previous',
         loop statusDir waitMS false previous (ticks ++ t :: ticks')
           = (events, previous', true)
         ∧ count is_fetch events = S (length ticks))
  ∧ (∀ options w,
       ∃ events,
         (monitorClusters options w).1.1 = [ProcessOnSigint; SignIn] ++ events
         ∧ count is_signIn events = 0%nat).
Proof.
  split_and!.
  - intros statusDir waitMS previous t clusters Hfetch Hwrite.
    unfold Monitor.iteration, Monitor.tryBlock. rewrite Hfetch, Hwrite.
    eexists _, _. split_and!; [simpl; reflexivity|done..| | |done].
    + destruct previous; simpl; count_events; by rewrite count_awaitAsync.
    + destruct previous; simpl; count_events; by rewrite count_awaitAsync.
  - apply loop_not_interrupted.
  - apply loop_interrupted.
  - apply monitorClusters_signIn_once.
Qed.

End MonitorLoop.

(** In the earlier listing of the monitor a failing fetch is logged and ends
    the process: no pass follows it. *)
Lemma earlier_fetch_error_exits toISOString prettyJSON_clusters prettyJSON_comparison
  statusDir waitMS previous t ticks ex :
  Monitor.getClusters_result t = Throw ex →
  MonitorEarlier.loop toISOString prettyJSON_clusters prettyJSON_comparison
    statusDir waitMS false previous (t :: ticks)
  = ([ Monitor.Print ["Retrieving clusters..."]; Monitor.GetClusters;
       Monitor.ConsoleError ex; Monitor.ProcessExit 1 ],
     Monitor.Exited 1).
Proof. intros Hthrow. simpl. unfold MonitorEarlier.iteration. by rewrite Hthrow. Qed.

(** A failing fetch, followed by a pass that succeeds. *)
Example fetch_error_caught_witness :
  let pass :=
    Monitor.iteration Sample.toISOString Sample.prettyJSON_clusters
      Sample.prettyJSON_comparison "logs" 60000 (Monitor.Clusters []) Sample.tick_error in
  pass.1 = [ Monitor.Print ["Retrieving clusters..."]; Monitor.GetClusters;
             Monitor.Print ["An error occured while fetching cluster data: ";
                            "FetchError: ETIMEDOUT"];
             Monitor.SetTimeout 60000 ]
  ∧ pass.2 = Monitor.Clusters [].
Proof.
  intros pass.
  destruct (fetch_error_caught Sample.toISOString Sample.prettyJSON_clusters
              Sample.prettyJSON_comparison "logs" 60000 (Monitor.Clusters [])
              Sample.tick_error [Sample.tick_ok] "FetchError: ETIMEDOUT")
    as (Hevents & Hprevious & _); [reflexivity|].
  split; [exact Hevents|exact Hprevious].
Defined.

(** A pass that succeeds while a previous snapshot is at hand. *)
Example monitor_pass_writes_then_waits_witness :
  let pass :=
    Monitor.iteration Sample.toISOString Sample.prettyJSON_clusters
      Sample.prettyJSON_comparison "logs" 60000 (Monitor.Clusters []) Sample.tick_ok in
  Monitor.count Monitor.is_snapshot pass.1 = 1%nat
  ∧ Monitor.count Monitor.is_csvRow pass.1 = 1%nat
  ∧ pass.2 = Monitor.Clusters [Sample.printer1; Sample.printer2].
Proof.
  intros pass.
  destruct (monitor_pass_writes_then_waits Sample.toISOString Monitor.compareCharCodes
              Sample.JSON_parse Sample.mkdir Sample.prettyJSON_clusters
              Sample.prettyJSON_comparison)
    as (Hpass & _).
  destruct (Hpass "logs" 60000 (Monitor.Clusters []) Sample.tick_ok
              [Sample.printer1; Sample.printer2])
    as (logFile & rows & _ & _ & _ & Hsnapshot & Hrows & Hprevious);
    [reflexivity|reflexivity|].
  split_and!; [exact Hsnapshot|exact Hrows|exact Hprevious].
Defined.

(** C6 fails as stated: on a machine without a status directory the first
    pass fetches the clusters and writes its snapshot, but appends no CSV
    row, there being no previous snapshot to compare with. *)
Example first_pass_appends_no_csv_row :
  let events :=
    (Monitor.monitorClusters Sample.toISOString Monitor.compareCharCodes
       Sample.JSON_parse Sample.mkdir Sample.prettyJSON_clusters Sample.prettyJSON_comparison
       Sample.no_options Sample.fresh_machine).1.1 in
  Monitor.count Monitor.is_fetch events = 1%nat
  ∧ Monitor.count Monitor.is_snapshot events = 1%nat
  ∧ Monitor.count Monitor.is_csvRow events = 0%nat
  ∧ ¬ (Monitor.count Monitor.is_snapshot events = 1%nat
       ∧ Monitor.count Monitor.is_csvRow events = 1%nat).
Proof.
  vm_compute. split_and!; [reflexivity..|]. intros [_ Hrow]. discriminate Hrow.
Qed.

(** ** The callback listener and the PKCE binding *)
Section SignIn.

Import DigitalFactory.

Variable CLIENT_ID : option string.
Variable SCOPES : option string.
Variable sha512 : string → list Byte.byte.
Variable toString_base64 : list Byte.byte → string.
Variable new_URL : string → completion URLSearchParams.
Variable URLSearchParams_toString : URLSearchParams → string.
Variable prettyJSON : string → string.

Local Abbreviation _handleRequest_checks :=
  (_handleRequest_checks CLIENT_ID SCOPES new_URL).
Local Abbreviation _handleRequest_resume := (_handleRequest_resume prettyJSON).
Local Abbreviation _handleRequest := (_handleRequest CLIENT_ID SCOPES new_URL prettyJSON).
Local Abbreviation serve := (serve CLIENT_ID SCOPES new_URL prettyJSON).
Local Abbreviation listeners := (listeners CLIENT_ID SCOPES new_URL prettyJSON).
Local Abbreviation signIn :=
  (signIn CLIENT_ID SCOPES sha512 toString_base64 URLSearchParams_toString).
Local Abbreviation _requestAccessToken := (_requestAccessToken CLIENT_ID SCOPES).
Local Abbreviation passes_checks := (passes_checks new_URL).

Lemma truthy_Some o s : truthy o = Some s ↔ o = Some s ∧ s ≠ "".
Proof.
  unfold truthy. destruct o as [s'|]; [|split; [done|by intros [? _]]].
  destruct (bool_decide_reflect (s' = "")) as [->|Hne]; split.
  - done.
  - intros [[= <-] Hne]. done.
  - intros [= <-]. done.
  - intros [[= <-] _]. done.
Qed.

(** The first half of the listener, by cases: it returns, or throws on a URL
    that does not parse, or, the checks passed, sends the token request with
    the stored verifier. *)
Lemma _handleRequest_checks_cases this req :
  _handleRequest_checks this req = Normal None
  ∨ (∃ req_url e,
       url req = Some req_url
       ∧ new_URL ("http://localhost:" +:+ pretty CALLBACK_SERVER_PORT +:+ req_url)
         = Throw e
       ∧ _handleRequest_checks this req = Throw e)
  ∨ (passes_checks this req
     ∧ ∃ code pkceVerifier,
         _pkceVerifier this = Some pkceVerifier
         ∧ _handleRequest_checks this req
           = Normal (Some (_requestAccessToken this code pkceVerifier))).
Proof.
  unfold DigitalFactory._handleRequest_checks.
  destruct (truthy (url req)) as [req_url|] eqn:Hurl; [|by left].
  destruct (truthy (_pkceVerifier this)) as [pkceVerifier|] eqn:Hverifier;
    [|by left].
  destruct (new_URL _) as [searchParams|e] eqn:Hparse.
  2: { right; left. exists req_url, e. by apply truthy_Some in Hurl as [-> _]. }
  destruct (truthy (searchParams_get searchParams "code")) as [code|] eqn:Hcode;
    [|by left].
  destruct (truthy (searchParams_get searchParams "state")) as [state|] eqn:Hstate;
    [|by left].
  case_bool_decide as Hsame; [by left|].
  apply truthy_Some in Hurl as [Hurl _], Hverifier as [Hverifier _],
    Hcode as [Hcode Hcode_ne], Hstate as [Hstate _].
  right; right. split.
  { exists req_url, searchParams, code, state. by rewrite Hparse. }
  by exists code, pkceVerifier.
Qed.

(** Once the verifier is reset, the listener returns at its second line. *)
Lemma _handleRequest_checks_reset this req :
  _pkceVerifier this = None → _handleRequest_checks this req = Normal None.
Proof.
  intros Hreset. unfold DigitalFactory._handleRequest_checks. rewrite Hreset.
  simpl. by destruct (truthy (url req)).
Qed.

(** The second half of the listener: a token request that fails changes
    nothing; one that succeeds stores the token pair and resets the server,
    the state and the verifier; neither sends a token request. *)
Lemma _handleRequest_resume_Throw this e :
  _handleRequest_resume this (Throw e) = (this, [], Throw e).
Proof. done. Qed.

Lemma _handleRequest_resume_Normal this tokenPair :
  ∃ this' events result,
    _handleRequest_resume this (Normal tokenPair) = (this', events, result)
    ∧ _callbackServer this' = None
    ∧ _state this' = None
    ∧ _pkceVerifier this' = None
    ∧ _tokenPair this' = Some tokenPair
    ∧ (is_Some (_callbackServer this) → Close ∈ events)
    ∧ token_requests events = [].
Proof.
  eexists _, _, _. split_and!; [done..| |].
  - intros [server ->]. simpl. do 3 right. left.
  - by destruct (_callbackServer this), (_signInCompleteResolve this).
Qed.

(** Resuming a listener keeps the verifier or resets it, and sends nothing. *)
Lemma _handleRequest_resume_verifier this tokenResponse :
  let '(this', events, _) := _handleRequest_resume this tokenResponse in
  (_pkceVerifier this' = _pkceVerifier this ∨ _pkceVerifier this' = None)
  ∧ token_requests events = [].
Proof.
  destruct tokenResponse as [tokenPair|e]; simpl; [|auto].
  split; [by right|].
  by destruct (_callbackServer this), (_signInCompleteResolve this).
Qed.

Lemma token_requests_app events events' :
  token_requests (events ++ events') = token_requests events ++ token_requests events'.
Proof. apply filter_app. Qed.

Lemma elem_of_token_requests target method body events :
  Fetch target method body ∈ events ↔ Fetch target method body ∈ token_requests events.
Proof.
  unfold token_requests. rewrite list_elem_of_filter.
  split; [by intros Hin|by intros [_ Hin]].
Qed.

(** While the verifier is [v] or reset, every token request that the server
    sends carries [v], however the listeners overlap. *)
Lemma serve_code_verifier v deliveries :
  ∀ this waiting,
    _pkceVerifier this = Some v ∨ _pkceVerifier this = None →
    ∀ target method body,
      Fetch target method body ∈ (serve this waiting deliveries).2 →
      searchParams_get body "code_verifier" = Some v.
Proof.
  induction deliveries as [|[req|tokenResponse] deliveries IH];
    intros this waiting Hverifier target method body; simpl.
  - by intros ?%elem_of_nil.
  - destruct (_handleRequest_checks_cases this req)
      as [->|[(req_url & e & _ & _ & ->)|(_ & code & pkceVerifier & Hcurrent & ->)]];
      [by apply IH..|].
    assert (pkceVerifier = v) as -> by (destruct Hverifier; congruence).
    specialize (IH this (S waiting) Hverifier target method body).
    destruct (serve this (S waiting) deliveries) as [this' events]. simpl in *.
    intros [Hsent|Hin]%elem_of_cons; [|auto].
    unfold DigitalFactory._requestAccessToken in Hsent.
    by injection Hsent as -> -> ->.
  - destruct waiting as [|waiting]; [by apply IH|].
    pose proof (_handleRequest_resume_verifier this tokenResponse) as Hresume.
    destruct (_handleRequest_resume this tokenResponse) as [[this' events] result].
    destruct Hresume as [Hkept Hnone].
    assert (_pkceVerifier this' = Some v ∨ _pkceVerifier this' = None) as Hverifier'
      by (destruct Hkept as [->| ->]; auto).
    specialize (IH this' waiting Hverifier' target method body).
    destruct (serve this' waiting deliveries) as [this'' events']. simpl in *.
    rewrite elem_of_token_requests, token_requests_app, Hnone.
    simpl. by rewrite <- elem_of_token_requests.
Qed.

(** Once the verifier is reset, the server sends no token request any more,
    whatever requests arrive and whichever listeners are resumed. *)
Lemma serve_reset deliveries :
  ∀ this waiting,
    _pkceVerifier this = None →
    token_requests (serve this waiting deliveries).2 = [].
Proof.
  induction deliveries as [|[req|tokenResponse] deliveries IH];
    intros this waiting Hreset; simpl; [done| |].
  - rewrite _handleRequest_checks_reset by done. by apply IH.
  - destruct waiting as [|waiting]; [by apply IH|].
    pose proof (_handleRequest_resume_verifier this tokenResponse) as Hresume.
    destruct (_handleRequest_resume this tokenResponse) as [[this' events] result].
    destruct Hresume as [Hkept Hnone].
    assert (_pkceVerifier this' = None) as Hreset'
      by (destruct Hkept as [->| ->]; auto).
    specialize (IH this' waiting Hreset').
    destruct (serve this' waiting deliveries) as [this'' events']. simpl in *.
    by rewrite token_requests_app, Hnone, IH.
Qed.


(** The server, one stretch of deliveries after another. *)
Lemma serve_app before after :
  ∀ this waiting,
    serve this waiting (before ++ after)
    = let '(this1, events1) := serve this waiting before in
      let '(this2, events2) := serve this1 (listeners this waiting before) after in
      (this2, events1 ++ events2).
Proof.
  induction before as [|[req|tokenResponse] before IH]; intros this waiting; simpl.
  - by destruct (serve this waiting after).
  - destruct (_handleRequest_checks this req) as [[request|]|e]; [|apply IH..].
    rewrite IH. destruct (serve this (S waiting) before) as [this1 events1].
    by destruct (serve this1 _ after).
  - destruct waiting as [|waiting]; [apply IH|].
    destruct (_handleRequest_resume this tokenResponse) as [[this' events] result].
    simpl. rewrite IH. destruct (serve this' waiting before) as [this1 events1].
    destruct (serve this1 _ after). by rewrite app_assoc.
Qed.

(** Once the listener has reset the object it stays reset. *)
Lemma serve_stays_reset deliveries :
  ∀ this waiting,
    _callbackServer this = None → _state this = None → _pkceVerifier this = None →
    is_Some (_tokenPair this) →
    let this' := (serve this waiting deliveries).1 in
    _callbackServer this' = None ∧ _state this' = None ∧ _pkceVerifier this' = None
    ∧ is_Some (_tokenPair this').
Proof.
  induction deliveries as [|[req|tokenResponse] deliveries IH];
    intros this waiting Hserver Hstate Hverifier Htoken; simpl; [done| |].
  - rewrite _handleRequest_checks_reset by done. by apply IH.
  - destruct waiting as [|waiting]; [by apply IH|].
    destruct tokenResponse as [tokenPair|e]; simpl.
    + specialize (IH {| _callbackServer := None;
                        _state := None;
                        _pkceVerifier := None;
                        _tokenPair := Some tokenPair;
                        _token_url := _token_url this;
                        _authorizationUrl := _authorizationUrl this;
                        _redirectUri := _redirectUri this;
                        _signInCompleteResolve := _signInCompleteResolve this |}
                    waiting eq_refl eq_refl eq_refl (mk_is_Some _ _ eq_refl)).
      by destruct (serve _ waiting deliveries).
    + specialize (IH this waiting Hserver Hstate Hverifier Htoken).
      by destruct (serve this waiting deliveries).
Qed.



End SignIn.






(** ** The interactive demo *)
Section DemoOrder.

Import Demo.

Variable json : Type.
Variable prettyJSON : json → string.

Local Abbreviation main := (main json prettyJSON).

(** C7, as the demo has it: after the sign-in the demo calls create-project
    and add-comment, then upload-file and submit-print-job if a cluster and
    a file are configured and neither of them if not, then
    list-running-jobs and search-projects, in that order; a call that
    throws ends the run; every call that returns is followed by a print. *)
Theorem demo_calls_in_order (w : World json) :
  let events := (main w).1 in
  name_of <$> calls events `prefix_of` guarded_order w
  ∧ ((main w).2 = Normal tt → name_of <$> calls events = guarded_order w)
  ∧ head events = Some SignIn
  ∧ each_call_printed events = true.
Proof.
  destruct w as [cluster path signedIn created commented uploaded submitted
                   jobs projects].
  unfold guarded_order, configured. cbn [CLUSTER_ID UFP_PATH].
  unfold Demo.main, print, mbind, Run.run_bind, Run.bind, Run.await, Run.emit.
  cbn [CLUSTER_ID UFP_PATH signIn_result createProject_result
         addCommentToProject_result uploadFileToProject_result
         submitPrintJob_result getRunningPrintJobs_result searchProjects_result].
  destruct (bool_decide (cluster ≠ _) && bool_decide (path ≠ _));
    destruct signedIn as [[]|], created, commented as [[]|], uploaded, submitted,
      jobs as [[|? ?]|], projects as [[|? ?]|];
    cbn; (split_and!; [by eexists|done..]).
Qed.

End DemoOrder.

(** A run with a cluster and a file configured reaches all six endpoints. *)
Example demo_calls_in_order_witness :
  Demo.name_of <$> Demo.calls (Demo.main string Sample.prettyJSON Sample.demo_configured).1
  = Demo.all_six.
Proof.
  destruct (demo_calls_in_order string Sample.prettyJSON Sample.demo_configured)
    as (_ & Hall & _).
  rewrite Hall; reflexivity.
Defined.

(** C7 fails as stated: with the example configuration left as it is, the
    demo reaches four endpoints and neither uploads a file nor submits a
    print job. *)
Example demo_skips_upload_and_submit :
  let events := (Demo.main string Sample.prettyJSON Sample.demo_unconfigured).1 in
  (Demo.main string Sample.prettyJSON Sample.demo_unconfigured).2 = Normal tt
  ∧ Demo.name_of <$> Demo.calls events
    = [ Demo.create_project; Demo.add_comment;
        Demo.list_running_jobs; Demo.search_projects ]
  ∧ Demo.name_of <$> Demo.calls events ≠ Demo.all_six.
Proof.
  vm_compute. split_and!; [reflexivity..|discriminate].
Qed.

(** * Further properties of the code *)

(** ** [compareResults]: consistency of the rows *)
Section CompareResultsRows.

Import Monitor.

Variable toISOString : Z → string.

Lemma elem_of_appeared previous current dateTime id :
  id ∈ appeared (compareResults toISOString previous current dateTime)
  ↔ online current id ∧ ¬ online previous id.
Proof.
  cbn. unfold JsSet.spread.
  rewrite list_elem_of_filter, has_getOnlineClusterIds_false,
    elem_of_getOnlineClusterIds. tauto.
Qed.

Lemma elem_of_gone previous current dateTime id :
  id ∈ gone (compareResults toISOString previous current dateTime)
  ↔ online previous id ∧ ¬ online current id.
Proof.
  cbn. unfold JsSet.spread.
  rewrite list_elem_of_filter, has_getOnlineClusterIds_false,
    elem_of_getOnlineClusterIds. tauto.
Qed.

Lemma appeared_to_gset previous current dateTime :
  list_to_set (appeared (compareResults toISOString previous current dateTime))
  = onlineIdSet current ∖ onlineIdSet previous.
Proof.
  apply set_eq. intros id. cbn. unfold JsSet.spread.
  rewrite elem_of_list_to_set, list_elem_of_filter, has_getOnlineClusterIds_false,
    elem_of_getOnlineClusterIds, elem_of_difference.
  rewrite <- !getOnlineClusterIds_to_gset, !elem_of_list_to_set,
    !elem_of_getOnlineClusterIds. tauto.
Qed.

Lemma gone_to_gset previous current dateTime :
  list_to_set (gone (compareResults toISOString previous current dateTime))
  = onlineIdSet previous ∖ onlineIdSet current.
Proof.
  apply set_eq. intros id. cbn. unfold JsSet.spread.
  rewrite elem_of_list_to_set, list_elem_of_filter, has_getOnlineClusterIds_false,
    elem_of_getOnlineClusterIds, elem_of_difference.
  rewrite <- !getOnlineClusterIds_to_gset, !elem_of_list_to_set,
    !elem_of_getOnlineClusterIds. tauto.
Qed.

Lemma length_appeared previous current dateTime :
  length (appeared (compareResults toISOString previous current dateTime))
  = size (onlineIdSet current ∖ onlineIdSet previous).
Proof.
  rewrite <- (appeared_to_gset previous current dateTime), size_list_to_set; [done|].
  apply NoDup_filter, NoDup_JsSet_new.
Qed.

Lemma length_gone previous current dateTime :
  length (gone (compareResults toISOString previous current dateTime))
  = size (onlineIdSet previous ∖ onlineIdSet current).
Proof.
  rewrite <- (gone_to_gset previous current dateTime), size_list_to_set; [done|].
  apply NoDup_filter, NoDup_JsSet_new.
Qed.

Lemma onlineCount_size previous current dateTime :
  onlineCount (compareResults toISOString previous current dateTime)
  = Z.of_nat (size (onlineIdSet current)).
Proof. cbn. unfold getOnlineClusterIds. by rewrite JsSet_size_new. Qed.

(** Successive rows add up: the number of clusters online in a row is the
    number online in the row before, plus those that appeared, minus those
    that are gone; and no ID is both appeared and gone in one row. *)
Theorem compareResults_rows_add_up before previous current t t' :
  let row := compareResults toISOString previous current t' in
  onlineCount row
  = onlineCount (compareResults toISOString before previous t)
    + Z.of_nat (length (appeared row)) - Z.of_nat (length (gone row))
  ∧ ∀ id, ¬ (id ∈ appeared row ∧ id ∈ gone row).
Proof.
  intros row. unfold row. split.
  - rewrite !onlineCount_size, length_appeared, length_gone.
    pose proof (size_union_alt (onlineIdSet current) (onlineIdSet previous)) as Hc.
    pose proof (size_union_alt (onlineIdSet previous) (onlineIdSet current)) as Hp.
    rewrite (union_comm_L (onlineIdSet current)) in Hc. lia.
  - intros id. rewrite elem_of_appeared, elem_of_gone. tauto.
Qed.

(** Replaying a row on the set of IDs that were online gives the set of IDs
    that are online: take out those that are gone, put in those that
    appeared. An ID that appeared in one row does not appear again in the
    next, nor does one that is gone go again. *)
Theorem compareResults_replay before previous current t t' :
  let row := compareResults toISOString previous current t' in
  let row_before := compareResults toISOString before previous t in
  onlineIdSet current
  = (onlineIdSet previous ∖ list_to_set (gone row)) ∪ list_to_set (appeared row)
  ∧ (∀ id, id ∈ appeared row_before → id ∉ appeared row)
  ∧ (∀ id, id ∈ gone row_before → id ∉ gone row).
Proof.
  intros row row_before. unfold row, row_before. split_and!.
  - rewrite appeared_to_gset, gone_to_gset. apply set_eq. intros id.
    rewrite elem_of_union, !elem_of_difference.
    destruct (decide (id ∈ onlineIdSet previous));
      destruct (decide (id ∈ onlineIdSet current)); tauto.
  - intros id. rewrite !elem_of_appeared. tauto.
  - intros id. rewrite !elem_of_gone. tauto.
Qed.

(** A [Set] built from a list keeps the first occurrence of each element, in
    the order of the list. *)
Lemma JsSet_foldl_add_sublist l acc :
  ∃ k, foldl JsSet.add acc l = acc ++ k ∧ k `sublist_of` l.
Proof.
  revert acc. induction l as [|x l IH]; intros acc; simpl.
  - exists []. by rewrite app_nil_r.
  - unfold JsSet.add at 2. destruct (JsSet.has acc x).
    + destruct (IH acc) as (k & -> & Hk). exists k. split; [done|].
      by apply sublist_cons.
    + destruct (IH (acc ++ [x])) as (k & -> & Hk). exists (x :: k).
      split; [by rewrite <- app_assoc|]. by apply sublist_skip.
Qed.

Lemma JsSet_new_sublist l : JsSet.new l `sublist_of` l.
Proof.
  unfold JsSet.new. by destruct (JsSet_foldl_add_sublist l []) as (k & -> & Hk).
Qed.

Lemma JsSet_new_length_NoDup l : length (JsSet.new l) = length l ↔ NoDup l.
Proof.
  assert (JsSet.new l ⊆+ l) as Hsub.
  { apply NoDup_submseteq; [apply NoDup_JsSet_new|].
    intros x. apply elem_of_JsSet_new. }
  split.
  - intros Hlength. apply submseteq_length_Permutation in Hsub; [|lia].
    rewrite <- Hsub. apply NoDup_JsSet_new.
  - intros Hnodup. apply Permutation_length, NoDup_Permutation;
      [apply NoDup_JsSet_new|done|]. intros x. apply elem_of_JsSet_new.
Qed.

Lemma length_filter_split (l : list ClusterResponse) :
  length l
  = (length (filter (λ cluster, is_online cluster = true) l)
     + length (filter (λ cluster, is_online cluster = false) l))%nat.
Proof.
  induction l as [|cluster l IH]; [done|].
  rewrite !filter_cons. destruct (is_online cluster); simpl; lia.
Qed.

(** The IDs of [appeared] come in the order in which [current] lists them,
    and those of [gone] in the order in which [previous] lists them. *)
Theorem compareResults_order previous current dateTime :
  let row := compareResults toISOString previous current dateTime in
  appeared row `sublist_of` (cluster_id <$> current)
  ∧ gone row `sublist_of` (cluster_id <$> previous).
Proof.
  assert (∀ clusters, getOnlineClusterIds clusters `sublist_of` (cluster_id <$> clusters))
    as Hids.
  { intros clusters. unfold getOnlineClusterIds.
    etrans; [apply JsSet_new_sublist|]. apply fmap_sublist, sublist_filter. }
  cbn. unfold JsSet.spread.
  split; (etrans; [apply sublist_filter|apply Hids]).
Qed.

(** [offlineCount] counts the entries that are offline and, besides, every
    entry that repeats the ID of an online entry; it is the number of offline
    entries exactly when the online entries have distinct IDs. Neither count
    is negative. *)
Theorem compareResults_offlineCount previous current dateTime :
  let row := compareResults toISOString previous current dateTime in
  let online_entries := filter (λ cluster, is_online cluster = true) current in
  let offline_entries := filter (λ cluster, is_online cluster = false) current in
  offlineCount row
  = Z.of_nat (length offline_entries)
    + (Z.of_nat (length online_entries) - onlineCount row)
  ∧ 0 ≤ onlineCount row ≤ Z.of_nat (length online_entries)
  ∧ Z.of_nat (length offline_entries) ≤ offlineCount row ≤ Z.of_nat (length current)
  ∧ (offlineCount row = Z.of_nat (length offline_entries)
     ↔ NoDup (cluster_id <$> online_entries)).
Proof.
  intros row online_entries offline_entries.
  pose proof (length_filter_split current) as Hsplit.
  pose proof (JsSet_length_new_le (cluster_id <$> online_entries)) as Hle.
  pose proof (JsSet_new_length_NoDup (cluster_id <$> online_entries)) as Hnodup.
  rewrite length_fmap in Hle, Hnodup.
  fold online_entries offline_entries in Hsplit.
  assert (onlineCount row
          = Z.of_nat (length (JsSet.new (cluster_id <$> online_entries)))) as Honline
    by done.
  assert (offlineCount row = Z.of_nat (length current) - onlineCount row) as Hoffline
    by done.
  rewrite Hoffline, Honline. split_and!; try lia.
  rewrite <- Hnodup. lia.
Qed.

End CompareResultsRows.

(** ** The names of the snapshots *)

Lemma append_String c s t : String c s +:+ t = String c (s +:+ t).
Proof. done. Qed.

Lemma length_append s t :
  String.length (s +:+ t) = (String.length s + String.length t)%nat.
Proof. induction s as [|c s IH]; [done|]. rewrite append_String. simpl. by rewrite IH. Qed.

Lemma substring_all s : String.substring 0 (String.length s) s = s.
Proof. induction s as [|c s IH]; [done|]. simpl. by rewrite IH. Qed.

Lemma substring_append_suffix s t :
  String.substring (String.length s) (String.length t) (s +:+ t) = t.
Proof.
  induction s as [|c s IH]; [apply substring_all|].
  rewrite append_String. simpl. apply IH.
Qed.

Lemma endsWith_append s suffix : Monitor.endsWith (s +:+ suffix) suffix = true.
Proof.
  unfold Monitor.endsWith. rewrite length_append.
  destruct (Nat.leb_spec (String.length suffix)
              (String.length s + String.length suffix)) as [_|]; [|lia].
  replace (String.length s + String.length suffix - String.length suffix)%nat
    with (String.length s) by lia.
  rewrite substring_append_suffix. apply String.eqb_refl.
Qed.

Lemma list_ascii_of_append s t :
  String.list_ascii_of_string (s +:+ t) = String.list_ascii_of_string s ++ String.list_ascii_of_string t.
Proof. induction s as [|c s IH]; [done|]. rewrite append_String. simpl. by rewrite IH. Qed.

Lemma append_assoc s t u : (s +:+ t) +:+ u = s +:+ t +:+ u.
Proof. induction s as [|c s IH]; [done|]. rewrite !append_String. by rewrite IH. Qed.

Lemma replace_colons_no_colon s :
  ¬ In ":"%char (String.list_ascii_of_string (Monitor.replace_colons s)).
Proof.
  induction s as [|c s IH]; simpl; [tauto|].
  intros [Hhead|Htail]; [|tauto].
  destruct (Ascii.eqb_spec c ":"%char) as [->|Hne]; [done|congruence].
Qed.

Section SnapshotNames.

Import Monitor MonitorRun.

Variable toISOString : Z → string.
Variable prettyJSON_clusters : list ClusterResponse → string.
Variable prettyJSON_comparison : Comparison → string.

Local Abbreviation iteration := (iteration toISOString prettyJSON_clusters prettyJSON_comparison).
Local Abbreviation loop := (loop toISOString prettyJSON_clusters prettyJSON_comparison).

Lemma written_paths_app events events' :
  written_paths (events ++ events') = written_paths events ++ written_paths events'.
Proof. apply omap_app. Qed.

Lemma written_paths_iteration statusDir waitMS previous t :
  Forall (snapshot_path statusDir) (written_paths (iteration statusDir waitMS previous t).1).
Proof.
  assert (∀ date, snapshot_path statusDir
            (statusDir +:+ "/" +:+ replace_colons (toISOString date) +:+ "-clusters.json"))
    as Hpath.
  { intros date. eexists. split; [done|]. split_and!.
    - rewrite list_ascii_of_append, in_app_iff.
      intros [Hdate|Hending]; [by apply replace_colons_no_colon in Hdate|].
      simpl in Hending. intuition discriminate.
    - apply endsWith_append.
    - change "-clusters.json" with ("-clusters" +:+ ".json").
      rewrite <- append_assoc. apply endsWith_append. }
  unfold Monitor.iteration, Monitor.tryBlock, awaitAsync.
  destruct (getClusters_result t) as [[clusters|]|ex]; simpl.
  - destruct (writeFile_result t); simpl.
    + constructor; [apply Hpath|].
      destruct previous; simpl; destruct (negb _ && _); simpl; constructor.
    + constructor; [apply Hpath|]. destruct (negb _ && _); simpl; constructor.
  - constructor.
  - destruct (negb _ && _); simpl; constructor.
Qed.

(** Every file that the loop writes is a snapshot of the status directory
    whose name has no colon and ends in ['-clusters.json'], hence in
    ['.json']: the files that the filter of [getPreviousClusterStatus]
    keeps. *)
Theorem loop_writes_snapshot_names statusDir waitMS aborted previous ticks :
  Forall (snapshot_path statusDir)
    (written_paths (loop statusDir waitMS aborted previous ticks).1.1).
Proof.
  revert aborted previous. induction ticks as [|t ticks IH]; intros [] previous;
    try (by constructor).
  simpl.
  pose proof (written_paths_iteration statusDir waitMS previous t) as Hpass.
  destruct (iteration statusDir waitMS previous t) as [events previous'].
  specialize (IH (sigint t) previous').
  destruct (loop statusDir waitMS (sigint t) previous' ticks) as [[events' p] exited].
  simpl in *. rewrite written_paths_app. by apply Forall_app.
Qed.

End SnapshotNames.

(** ** [getPreviousClusterStatus]: what it leaves alone *)

Lemma compareCharCodes_antisym a b :
  Monitor.compareCharCodes a b ≤ 0 → Monitor.compareCharCodes b a ≤ 0 → a = b.
Proof. rewrite !compareCharCodes_le. apply (anti_symm String.le). Qed.

Section PreviousClusterStatusFrame.

Import Monitor.

Variable localeCompare : string → string → Z.
Variable JSON_parse : string → completion snapshot.
Variable mkdir : FileSystem → string → gmap string (list string) * completion unit.

Local Abbreviation getPreviousClusterStatus :=
  (getPreviousClusterStatus localeCompare JSON_parse mkdir).


(** [localeCompare] is a consistent comparator under which no two different
    names are equal. *)
Hypothesis localeCompare_total :
  ∀ a b, 0 < localeCompare a b → localeCompare b a ≤ 0.
Hypothesis localeCompare_trans :
  ∀ a b c, localeCompare a b ≤ 0 → localeCompare b c ≤ 0 → localeCompare a c ≤ 0.
Hypothesis localeCompare_antisym :
  ∀ a b, localeCompare a b ≤ 0 → localeCompare b a ≤ 0 → a = b.

(** The order in which [readdir] lists the status directory does not
    matter: two file systems with the same files, whose listings of the
    status directory are permutations of each other, give the same previous
    status. *)
Theorem getPreviousClusterStatus_listing_order fs1 fs2 statusDir names1 names2 :
  files fs1 = files fs2 →
  dirs fs1 !! statusDir = Some names1 →
  dirs fs2 !! statusDir = Some names2 →
  names1 ≡ₚ names2 →
  (getPreviousClusterStatus fs1 statusDir).2 = (getPreviousClusterStatus fs2 statusDir).2.
Proof.
  intros Hfiles Hdir1 Hdir2 Hperm. unfold Monitor.getPreviousClusterStatus.
  assert (existsSync fs1 statusDir = true) as ->
    by (apply bool_decide_eq_true; left; eauto).
  assert (existsSync fs2 statusDir = true) as ->
    by (apply bool_decide_eq_true; left; eauto).
  simpl. unfold readdir, readFile. rewrite Hdir1, Hdir2, Hfiles.
  set (json1 := filter (λ file, endsWith file ".json" = true) names1).
  set (json2 := filter (λ file, endsWith file ".json" = true) names2).
  assert (json1 ≡ₚ json2) as Hjson by (unfold json1, json2; by rewrite Hperm).
  pose proof (head_sort (λ a b, localeCompare b a)
    (λ a b, localeCompare_total b a)
    (λ a b c Hab Hbc, localeCompare_trans c b a Hbc Hab) json1) as Hhead1.
  pose proof (head_sort (λ a b, localeCompare b a)
    (λ a b, localeCompare_total b a)
    (λ a b c Hab Hbc, localeCompare_trans c b a Hbc Hab) json2) as Hhead2.
  destruct (head (sort _ json1)) as [last1|], (head (sort _ json2)) as [last2|].
  - destruct Hhead1 as [Hin1 Hmax1], Hhead2 as [Hin2 Hmax2].
    assert (last1 = last2) as ->.
    { apply localeCompare_antisym.
      - apply Hmax2. by rewrite <- Hjson.
      - apply Hmax1. by rewrite Hjson. }
    by destruct (files fs2 !! _).
  - destruct Hhead1 as [Hin1 _]. rewrite Hjson, Hhead2 in Hin1.
    by apply elem_of_nil in Hin1.
  - destruct Hhead2 as [Hin2 _]. rewrite <- Hjson, Hhead1 in Hin2.
    by apply elem_of_nil in Hin2.
  - done.
Qed.

End PreviousClusterStatusFrame.

(** ** The monitor loop: what its runs keep *)
Section MonitorRuns.

Import Monitor MonitorRun.

Variable toISOString : Z → string.
Variable localeCompare : string → string → Z.
Variable JSON_parse : string → completion snapshot.
Variable mkdir : FileSystem → string → gmap string (list string) * completion unit.
Variable prettyJSON_clusters : list ClusterResponse → string.
Variable prettyJSON_comparison : Comparison → string.

Local Abbreviation iteration := (iteration toISOString prettyJSON_clusters prettyJSON_comparison).
Local Abbreviation loop := (loop toISOString prettyJSON_clusters prettyJSON_comparison).
Local Abbreviation monitorClusters :=
  (monitorClusters toISOString localeCompare JSON_parse mkdir
     prettyJSON_clusters prettyJSON_comparison).
Local Abbreviation script :=
  (script toISOString localeCompare JSON_parse mkdir
     prettyJSON_clusters prettyJSON_comparison).

Ltac count_pass :=
  repeat (rewrite count_cons || rewrite count_app || rewrite count_nil); simpl.

(** What one pass adds to the counts, by the kind of pass. *)
Lemma iteration_counts statusDir waitMS previous t :
  let pass := iteration statusDir waitMS previous t in
  count is_fetch pass.1 = 1%nat
  ∧ count is_snapshot pass.1 = (if is_success t then 1 else 0)%nat
  ∧ count is_csvRow pass.1 = (if is_success t && truthy previous then 1 else 0)%nat
  ∧ count is_wait pass.1 = (if is_continue t then 0 else 1)%nat
  ∧ count is_consoleError pass.1 = 0%nat
  ∧ count is_exit pass.1 = 0%nat
  ∧ pass.2 = (if is_success t
              then match getClusters_result t with
                   | Normal (Some clusters) => Clusters clusters
                   | _ => previous
                   end
              else previous).
Proof.
  unfold Monitor.iteration, Monitor.tryBlock, awaitAsync, is_success, is_continue.
  destruct (getClusters_result t) as [[clusters|]|ex]; simpl.
  - destruct (writeFile_result t); simpl.
    + destruct previous; simpl; destruct (negb _ && _); count_pass; done.
    + destruct (negb _ && _); count_pass; done.
  - count_pass. done.
  - destruct (negb _ && _); count_pass; done.
Qed.

Lemma passes_cons t ticks : passes false (t :: ticks) = t :: passes (sigint t) ticks.
Proof. done. Qed.

(** Every snapshot but the first of a fresh start has its row: when the loop
    starts with a previous status, it appends as many CSV rows as it writes
    snapshots; when it starts without one, it appends one row less. The
    previous status, once there, stays. *)
Theorem loop_rows_follow_snapshots statusDir waitMS aborted previous ticks :
  let run := loop statusDir waitMS aborted previous ticks in
  count is_csvRow run.1.1
  = (if truthy previous then count is_snapshot run.1.1
     else pred (count is_snapshot run.1.1))
  ∧ truthy run.1.2
    = truthy previous || negb (Nat.eqb (count is_snapshot run.1.1) 0).
Proof.
  revert aborted previous. induction ticks as [|t ticks IH]; intros [] previous;
    rewrite ?loop_aborted; try (simpl; by destruct (truthy previous)).
  rewrite loop_step.
  destruct (iteration_counts statusDir waitMS previous t)
    as (_ & Hsnapshot & Hrow & _ & _ & _ & Hprevious).
  specialize (IH (sigint t) (iteration statusDir waitMS previous t).2).
  destruct (loop statusDir waitMS (sigint t) _ ticks) as [[events' previous''] exited].
  simpl in *. rewrite !count_app, Hsnapshot, Hrow.
  destruct IH as [-> ->]. rewrite Hprevious.
  destruct (is_success t) eqn:Hsuccess; simpl.
  - unfold is_success in Hsuccess.
    destruct (getClusters_result t) as [[clusters|]|]; try done. simpl.
    destruct (truthy previous); simpl; [done|].
    split; [lia|done].
  - by destruct (truthy previous).
Qed.

(** The loop fetches once in every pass it goes through, and starts a timer
    in every pass but those whose answer holds no cluster list: after such
    an answer the next fetch follows without a wait. *)
Theorem loop_waits statusDir waitMS aborted previous ticks :
  let events := (loop statusDir waitMS aborted previous ticks).1.1 in
  count is_fetch events = length (passes aborted ticks)
  ∧ count is_wait events
    = length (filter (λ t, is_continue t = false) (passes aborted ticks)).
Proof.
  revert aborted previous. induction ticks as [|t ticks IH]; intros [] previous;
    rewrite ?loop_aborted; try done.
  rewrite loop_step, passes_cons.
  destruct (iteration_counts statusDir waitMS previous t)
    as (Hfetch & _ & _ & Hwait & _).
  specialize (IH (sigint t) (iteration statusDir waitMS previous t).2).
  destruct (loop statusDir waitMS (sigint t) _ ticks) as [[events' previous''] exited].
  simpl in *. rewrite !count_app, Hfetch, Hwait.
  destruct IH as [-> ->]. split; [done|].
  rewrite filter_cons. by destruct (is_continue t).
Qed.

Lemma loop_never_exits statusDir waitMS aborted previous ticks :
  let events := (loop statusDir waitMS aborted previous ticks).1.1 in
  count is_consoleError events = 0%nat ∧ count is_exit events = 0%nat.
Proof.
  revert aborted previous. induction ticks as [|t ticks IH]; intros [] previous;
    rewrite ?loop_aborted; try done.
  rewrite loop_step.
  destruct (iteration_counts statusDir waitMS previous t)
    as (_ & _ & _ & _ & Herror & Hexit & _).
  specialize (IH (sigint t) (iteration statusDir waitMS previous t).2).
  destruct (loop statusDir waitMS (sigint t) _ ticks) as [[events' previous''] exited].
  simpl in *. rewrite !count_app, Herror, Hexit. by destruct IH as [-> ->].
Qed.

(** No pass of the loop ends the process. *)
Lemma loop_not_uncaught statusDir waitMS aborted previous ticks :
  count is_uncaught (loop statusDir waitMS aborted previous ticks).1.1 = 0%nat.
Proof.
  revert aborted previous. induction ticks as [|t ticks IH]; intros [] previous;
    rewrite ?loop_aborted; try done.
  rewrite loop_step.
  specialize (IH (sigint t) (iteration statusDir waitMS previous t).2).
  destruct (loop statusDir waitMS (sigint t) _ ticks) as [[events' previous''] exited].
  simpl in *. rewrite count_app, IH, Nat.add_0_r.
  unfold Monitor.iteration, Monitor.tryBlock, awaitAsync.
  destruct (getClusters_result t) as [[clusters|]|ex]; simpl.
  - destruct (writeFile_result t); simpl.
    + destruct previous; simpl; destruct (negb _ && _); count_pass; done.
    + destruct (negb _ && _); count_pass; done.
  - count_pass. done.
  - destruct (negb _ && _); count_pass; done.
Qed.

Lemma count_0_elem_of kind events e :
  count kind events = 0%nat → e ∈ events → kind e = false.
Proof.
  unfold count. intros Hnone Hin. destruct (kind e) eqn:Hkind; [|done].
  assert (e ∈ filter (λ e, kind e = true) events) as Hfiltered
    by by apply list_elem_of_filter.
  destruct (filter _ events); [by apply elem_of_nil in Hfiltered|done].
Qed.

(** The script of the monitor calls [process.exit(1)], after it has logged
    the error by [console.error], only when the sign-in or the reading of
    the previous status fails, in which case nothing was fetched. Once the
    loop is entered no answer of the API or of [writeFile] ends the process
    with an error: it ends with code 1 only when the stream of the
    comparison file emits an error, which nothing catches, and it exits
    with code 0 when the loop is left. *)
Theorem script_exit options w :
  let events := script options w in
  let outcome := (monitorClusters options w).2 in
  let started :=
    match signIn_result w with
    | Throw _ => false
    | Normal _ =>
        match (Monitor.getPreviousClusterStatus localeCompare JSON_parse mkdir
                 (fileSystem w)
                 (default "../cluster-monitoring-logs" (statusDir options))).2 with
        | Throw _ => false
        | Normal _ => true
        end
    end in
  if started
  then count is_consoleError events = 0%nat
       ∧ (ProcessExit 1 ∉ events)
       ∧ (ProcessExit 0 ∈ events ↔ outcome = Resolved)
       ∧ (outcome = Exited 1 ↔ ∃ error, UncaughtException error ∈ events)
       ∧ (∀ code, outcome = Exited code →
            code = 1
            ∧ ∃ n error,
                stream_error w = Some (n, error)
                ∧ last events = Some (UncaughtException error))
  else count is_fetch events = 0%nat
       ∧ count is_consoleError events = 1%nat
       ∧ last events = Some (ProcessExit 1).
Proof.
  unfold Monitor.script, Monitor.monitorClusters.
  destruct (signIn_result w); [|done].
  destruct (Monitor.getPreviousClusterStatus _ _ _ _ _) as [fs [previous|e]]; [|done].
  simpl.
  pose proof (loop_never_exits
    (default "../cluster-monitoring-logs" (statusDir options))
    (default 60000 (waitMS options)) (sigint_before_loop w) previous (ticks w))
    as [Herror Hexit].
  pose proof (loop_not_uncaught
    (default "../cluster-monitoring-logs" (statusDir options))
    (default 60000 (waitMS options)) (sigint_before_loop w) previous (ticks w))
    as Huncaught.
  destruct (Monitor.loop _ _ _ _ _ _ _ _) as [[events previous'] exited].
  simpl in *.
  assert (∀ code, ProcessExit code ∉ events) as Hnone
    by (intros code Hin; by apply (count_0_elem_of _ _ _ Hexit) in Hin).
  assert (∀ error, UncaughtException error ∉ events) as Hcaught
    by (intros error Hin; by apply (count_0_elem_of _ _ _ Huncaught) in Hin).
  destruct (stream_fails w events) as [[before error]|] eqn:Hfails; simpl.
  - pose proof (stream_fails_prefix _ _ _ _ Hfails) as Hprefix.
    apply stream_fails_Some in Hfails as (n & Hstream & _).
    pose proof (count_prefix is_consoleError _ _ Hprefix) as Hle.
    assert (∀ code, ProcessExit code ∉ before) as Hnone'.
    { intros code Hin. destruct Hprefix as [rest ->].
      apply (Hnone code), elem_of_app. by left. }
    split_and!.
    + count_pass. lia.
    + rewrite !elem_of_cons, !elem_of_app, !elem_of_cons, elem_of_nil.
      pose proof (Hnone' 1). intuition discriminate.
    + split; [|done].
      rewrite !elem_of_cons, !elem_of_app, !elem_of_cons, elem_of_nil.
      pose proof (Hnone' 0). intuition discriminate.
    + split; [|done]. intros _. exists error. do 4 right.
      rewrite elem_of_app. right. left.
    + intros code [= <-]. split; [done|]. exists n, error. split; [done|].
      rewrite !app_comm_cons. apply last_snoc.
  - assert ((if exited then Resolved else Running) ≠ Exited 1) as Hgoes
      by by destruct exited.
    destruct exited; simpl.
    + split_and!.
      * count_pass. by rewrite Herror.
      * rewrite !elem_of_cons, !elem_of_app, !elem_of_cons, elem_of_nil.
        pose proof (Hnone 1). intuition discriminate.
      * split; [done|]. intros _. do 4 right.
        rewrite !elem_of_app. right. left.
      * split; [done|]. intros [error Hin]. revert Hin.
        rewrite !elem_of_cons, !elem_of_app, !elem_of_cons, elem_of_nil.
        pose proof (Hcaught error). intuition discriminate.
      * done.
    + split_and!.
      * count_pass. by rewrite Herror.
      * rewrite !elem_of_cons, !elem_of_app, elem_of_nil.
        pose proof (Hnone 1). intuition discriminate.
      * split; [|done].
        rewrite !elem_of_cons, !elem_of_app, elem_of_nil.
        pose proof (Hnone 0). intuition discriminate.
      * split; [done|]. intros [error Hin]. revert Hin.
        rewrite !elem_of_cons, !elem_of_app, elem_of_nil.
        pose proof (Hcaught error). intuition discriminate.
      * done.
Qed.

End MonitorRuns.

(** ** The earlier listing of the monitor: the first error ends the run *)
Section EarlierRuns.

Import Monitor MonitorRun.

Variable toISOString : Z → string.
Variable prettyJSON_clusters : list ClusterResponse → string.
Variable prettyJSON_comparison : Comparison → string.

Local Abbreviation loop :=
  (MonitorEarlier.loop toISOString prettyJSON_clusters prettyJSON_comparison).
Local Abbreviation iteration :=
  (MonitorEarlier.iteration toISOString prettyJSON_clusters prettyJSON_comparison).

Lemma earlier_iteration_success statusDir waitMS previous t :
  is_success t = true →
  ∃ events clusters,
    iteration statusDir waitMS previous t = (events, Normal (Clusters clusters))
    ∧ count is_fetch events = 1%nat
    ∧ count is_consoleError events = 0%nat.
Proof.
  unfold is_success, MonitorEarlier.iteration.
  destruct (getClusters_result t) as [[clusters|]|]; try done.
  destruct (writeFile_result t); [|done]. intros _.
  eexists _, _. split; [done|].
  destruct previous; simpl;
    repeat (rewrite count_cons || rewrite count_app || rewrite count_nil); done.
Qed.

(** In the listing with one [try] around the loop, the first fetch that
    throws is the last: after passes that succeed, a pass whose fetch throws
    logs the error by [console.error] and leaves the process with code 1,
    whatever answers would follow. *)
Theorem earlier_loop_stops_at_error statusDir waitMS previous ticks t ticks' ex :
  Forall (λ t, is_success t = true ∧ sigint t = false) ticks →
  getClusters_result t = Throw ex →
  let run := loop statusDir waitMS false previous (ticks ++ t :: ticks') in
  run.2 = Exited 1
  ∧ count is_fetch run.1 = S (length ticks)
  ∧ count is_consoleError run.1 = 1%nat
  ∧ last run.1 = Some (ProcessExit 1).
Proof.
  intros Hticks Hthrow. revert previous.
  induction Hticks as [|t0 ticks [Hsuccess Hquiet] _ IH]; intros previous; simpl.
  - unfold MonitorEarlier.iteration. rewrite Hthrow. done.
  - destruct (earlier_iteration_success statusDir waitMS previous t0 Hsuccess)
      as (events & clusters & -> & Hfetch & Herror).
    rewrite Hquiet. specialize (IH (Clusters clusters)). simpl in IH.
    destruct (loop statusDir waitMS false (Clusters clusters) (ticks ++ t :: ticks'))
      as [events' state].
    simpl in *. destruct IH as (-> & Hfetch' & Herror' & Hlast).
    rewrite !count_app, Hfetch, Herror, Hfetch', Herror'.
    split_and!; [done..|].
    destruct events' as [|e events']; [done|].
    by rewrite last_app_cons.
Qed.

End EarlierRuns.

(** ** The sign-in: what the token request takes from it *)
Section SignInBinding.

Import DigitalFactory.

Variable CLIENT_ID : option string.
Variable SCOPES : option string.
Variable sha512 : string → list Byte.byte.
Variable toString_base64 : list Byte.byte → string.
Variable new_URL : string → completion URLSearchParams.
Variable URLSearchParams_toString : URLSearchParams → string.
Variable prettyJSON : string → string.

Local Abbreviation _handleRequest_checks :=
  (_handleRequest_checks CLIENT_ID SCOPES new_URL).
Local Abbreviation _handleRequest_resume := (_handleRequest_resume prettyJSON).
Local Abbreviation serve := (serve CLIENT_ID SCOPES new_URL prettyJSON).
Local Abbreviation signIn :=
  (signIn CLIENT_ID SCOPES sha512 toString_base64 URLSearchParams_toString).
Local Abbreviation _requestAccessToken := (_requestAccessToken CLIENT_ID SCOPES).

(** Resuming a listener leaves the token URL and the redirect URI alone. *)
Lemma _handleRequest_resume_urls this tokenResponse :
  let '(this', events, _) := _handleRequest_resume this tokenResponse in
  _token_url this' = _token_url this
  ∧ _redirectUri this' = _redirectUri this
  ∧ token_requests events = [].
Proof.
  destruct tokenResponse as [tokenPair|e]; simpl; [|done].
  split_and!; [done..|].
  by destruct (_callbackServer this), (_signInCompleteResolve this).
Qed.

(** The first half of the listener sends nothing but the token request of
    [_requestAccessToken], with the code of the URL. *)
Lemma _handleRequest_checks_request this req request :
  _handleRequest_checks this req = Normal (Some request) →
  ∃ req_url searchParams code state pkceVerifier,
    url req = Some req_url
    ∧ new_URL ("http://localhost:" +:+ pretty CALLBACK_SERVER_PORT +:+ req_url)
      = Normal searchParams
    ∧ searchParams_get searchParams "code" = Some code
    ∧ searchParams_get searchParams "state" = Some state
    ∧ _state this = Some state
    ∧ _pkceVerifier this = Some pkceVerifier
    ∧ request = _requestAccessToken this code pkceVerifier.
Proof.
  unfold DigitalFactory._handleRequest_checks.
  destruct (truthy (url req)) as [req_url|] eqn:Hurl; [|done].
  destruct (truthy (_pkceVerifier this)) as [pkceVerifier|] eqn:Hverifier; [|done].
  destruct (new_URL _) as [searchParams|e] eqn:Hparse; [|done].
  destruct (truthy (searchParams_get searchParams "code")) as [code|] eqn:Hcode;
    [|done].
  destruct (truthy (searchParams_get searchParams "state")) as [state|] eqn:Hstate;
    [|done].
  case_bool_decide as Hsame; [done|]. intros [= <-].
  apply truthy_Some in Hurl as [Hurl _], Hverifier as [Hverifier _],
    Hcode as [Hcode _], Hstate as [Hstate _].
  exists req_url, searchParams, code, state, pkceVerifier.
  by rewrite Hparse.
Qed.

Lemma serve_token_request_shape token_url redirectUri deliveries :
  ∀ this waiting,
    _token_url this = Some token_url →
    _redirectUri this = Some redirectUri →
    ∀ target method body,
      Fetch target method body ∈ (serve this waiting deliveries).2 →
      target = Some token_url ∧ method = "POST"
      ∧ searchParams_get body "grant_type" = Some "authorization_code"
      ∧ searchParams_get body "redirect_uri" = Some redirectUri
      ∧ searchParams_get body "client_id" = Some (of_undefined CLIENT_ID)
      ∧ searchParams_get body "scope" = Some (of_undefined SCOPES).
Proof.
  induction deliveries as [|[req|tokenResponse] deliveries IH];
    intros this waiting Htoken_url Hredirect target method body; simpl.
  - by intros ?%elem_of_nil.
  - destruct (_handleRequest_checks this req) as [[request|]|e] eqn:Hchecks;
      [|by apply IH..].
    apply _handleRequest_checks_request in Hchecks
      as (_ & _ & code & _ & pkceVerifier & _ & _ & _ & _ & _ & _ & ->).
    specialize (IH this (S waiting) Htoken_url Hredirect target method body).
    destruct (serve this (S waiting) deliveries) as [this' events]. simpl in *.
    intros [Hsent|Hin]%elem_of_cons; [|auto].
    unfold DigitalFactory._requestAccessToken in Hsent.
    injection Hsent as -> -> ->. rewrite Htoken_url, Hredirect. done.
  - destruct waiting as [|waiting]; [by apply IH|].
    pose proof (_handleRequest_resume_urls this tokenResponse) as Hresume.
    destruct (_handleRequest_resume this tokenResponse) as [[this' events] result].
    destruct Hresume as (Htoken_url' & Hredirect' & Hnone).
    rewrite Htoken_url in Htoken_url'. rewrite Hredirect in Hredirect'.
    specialize (IH this' waiting Htoken_url' Hredirect' target method body).
    destruct (serve this' waiting deliveries) as [this'' events']. simpl in *.
    rewrite elem_of_token_requests, token_requests_app, Hnone.
    simpl. by rewrite <- elem_of_token_requests.
Qed.

(** Every token request sent after a [signIn] goes by POST to the token URL
    of the identity provider, asks for the [authorization_code] grant, and
    names the redirect URI, the client and the scope that the sign-in URL
    named. *)
Theorem token_request_matches_sign_in this randomBytes16 randomBytes32
  waiting deliveries target method body :
  let this1 := (signIn this randomBytes16 randomBytes32).1 in
  let query :=
    signIn_query CLIENT_ID SCOPES sha512 toString_base64
      ("http://localhost:" +:+ pretty CALLBACK_SERVER_PORT +:+ "/callback")
      (_generateState toString_base64 randomBytes16)
      (_generatePKCEVerifier toString_base64 randomBytes32) in
  Fetch target method body ∈ (serve this1 waiting deliveries).2 →
  target = Some (OAUTH_SERVER_URL +:+ "/token") ∧ method = "POST"
  ∧ searchParams_get body "grant_type" = Some "authorization_code"
  ∧ searchParams_get body "redirect_uri" = searchParams_get query "redirect_uri"
  ∧ searchParams_get body "client_id" = searchParams_get query "client_id"
  ∧ searchParams_get body "scope" = searchParams_get query "scope".
Proof.
  intros this1 query Hsent.
  apply (serve_token_request_shape (OAUTH_SERVER_URL +:+ "/token")
           ("http://localhost:" +:+ pretty CALLBACK_SERVER_PORT +:+ "/callback")
           deliveries this1 waiting eq_refl eq_refl) in Hsent.
  exact Hsent.
Qed.

(** After a [signIn] the listener sends a token request only for a request
    that carries the state drawn by that [signIn], whatever states earlier
    sign-ins drew, and the token request carries the code of that request. *)
Theorem sign_in_binds_state this randomBytes16 randomBytes32 req request :
  let this1 := (signIn this randomBytes16 randomBytes32).1 in
  _handleRequest_checks this1 req = Normal (Some request) →
  ∃ req_url searchParams code,
    url req = Some req_url
    ∧ new_URL ("http://localhost:" +:+ pretty CALLBACK_SERVER_PORT +:+ req_url)
      = Normal searchParams
    ∧ searchParams_get searchParams "state"
      = Some (_generateState toString_base64 randomBytes16)
    ∧ searchParams_get searchParams "code" = Some code
    ∧ ∃ target method body,
        request = Fetch target method body
        ∧ searchParams_get body "code" = Some code.
Proof.
  intros this1 Hchecks.
  apply _handleRequest_checks_request in Hchecks
    as (req_url & searchParams & code & state & pkceVerifier
        & Hurl & Hparse & Hcode & Hstate & Hstored & _ & ->).
  injection Hstored as <-.
  exists req_url, searchParams, code. split_and!; [done..|].
  by eexists _, _, _.
Qed.

End SignInBinding.

(** ** The calls of the API: the token and its refresh *)
Section ApiToken.

Import DigitalFactory Api.

Variable CLIENT_ID : option string.
Variable SCOPES : option string.
Variable prettyJSON : value → string.
Variable String_of : value → string.
Variable Number_of : value → option Z.

Local Abbreviation ToString := (ToString String_of).
Local Abbreviation ToNumber := (ToNumber Number_of).
Local Abbreviation _checkTokenExpiration :=
  (_checkTokenExpiration CLIENT_ID SCOPES prettyJSON String_of Number_of).
Local Abbreviation _handleRequest_resume :=
  (Api._handleRequest_resume prettyJSON String_of).

(** The request that refreshes the token of [this] with a refresh token. *)
Local Abbreviation refresh_request this refresh_token :=
  (Fetch (of_option (_token_url this)) "POST" ∅
     (Form [ ("client_id", of_undefined CLIENT_ID);
             ("grant_type", "refresh_token");
             ("refresh_token", refresh_token);
             ("scope", of_undefined SCOPES) ])).

(** [Date.now() > this._tokenTimestampMs + 1000 * (expires_in - 30)] *)
Local Abbreviation due this expires_in time :=
  (greater_than time
     ((λ n, _tokenTimestampMs this + 1000 * (n - 30)) <$> ToNumber expires_in)).

(** A value of which one property can be read is neither [null] nor
    [undefined]: every property of it can be read. *)
Lemma prop_readable v key key' x :
  prop v key = Normal x → ∃ y, prop v key' = Normal y.
Proof. destruct v; simpl; try done; eauto. Qed.

(** The check of the token, unfolded. *)
Lemma _checkTokenExpiration_unfold r this :
  _checkTokenExpiration r this
  = match prop (_tokenPair this) "expires_in" with
    | Throw e => (this, [], Throw e)
    | Normal expires_in =>
        if due this expires_in (now r) then
          match prop (_tokenPair this) "refresh_token" with
          | Throw e => (this, [Print "Trying to refresh the token"], Throw e)
          | Normal refresh_token =>
              match refreshed r with
              | Throw e =>
                  (this,
                   [ Print "Trying to refresh the token";
                     refresh_request this (ToString refresh_token) ],
                   Throw e)
              | Normal tokenPair =>
                  let stored :=
                    set_tokenTimestampMs (now_refreshed r) (set_tokenPair tokenPair this) in
                  match prop tokenPair "access_token" with
                  | Throw e =>
                      (stored,
                       [ Print "Trying to refresh the token";
                         refresh_request this (ToString refresh_token) ],
                       Throw e)
                  | Normal access_token =>
                      match prop tokenPair "expires_in" with
                      | Throw e =>
                          (stored,
                           [ Print "Trying to refresh the token";
                             refresh_request this (ToString refresh_token);
                             Print ("New access token: " +:+ prettyJSON access_token) ],
                           Throw e)
                      | Normal expires_in' =>
                          (stored,
                           [ Print "Trying to refresh the token";
                             refresh_request this (ToString refresh_token);
                             Print ("New access token: " +:+ prettyJSON access_token);
                             Print ("Expires in: " +:+ ToString expires_in' +:+ "s") ],
                           Normal tt)
                      end
                  end
              end
          end
        else (this, [], Normal tt)
    end.
Proof.
  unfold Api._checkTokenExpiration, _tokenNeedsRefresh, Api._requestTokenRefresh,
    mbind, M_bind, bind, mret, M_ret, ret, get_this, throw, lift, effect, modify, print.
  simpl. destruct (prop (_tokenPair this) "expires_in") as [expires_in|]; [|done].
  simpl. destruct (greater_than _ _); [|done]. simpl.
  destruct (prop (_tokenPair this) "refresh_token") as [refresh_token|]; [|done].
  simpl. destruct (refreshed r) as [tokenPair|]; [|done]. simpl.
  destruct (prop tokenPair "access_token") as [access_token|]; [|done]. simpl.
  by destruct (prop tokenPair "expires_in").
Qed.

Lemma _checkTokenExpiration_not_due r this tokenPair :
  holds (_tokenPair this) tokenPair →
  ¬ _tokenTimestampMs this + 1000 * (expires_in tokenPair - 30) < now r →
  _checkTokenExpiration r this = (this, [], Normal tt).
Proof.
  intros (_ & Hexpires & _) Hfresh. rewrite _checkTokenExpiration_unfold, Hexpires.
  simpl. by rewrite bool_decide_eq_false_2.
Qed.

Lemma _checkTokenExpiration_due_Throw r this tokenPair e :
  holds (_tokenPair this) tokenPair →
  _tokenTimestampMs this + 1000 * (expires_in tokenPair - 30) < now r →
  refreshed r = Throw e →
  _checkTokenExpiration r this
  = (this,
     [ Print "Trying to refresh the token";
       refresh_request this (refresh_token tokenPair) ],
     Throw e).
Proof.
  intros (_ & Hexpires & Hrefresh) Hdue Hthrow.
  rewrite _checkTokenExpiration_unfold, Hexpires. simpl.
  rewrite bool_decide_eq_true_2 by done. by rewrite Hrefresh, Hthrow.
Qed.

Lemma _checkTokenExpiration_due_Normal r this tokenPair answer :
  holds (_tokenPair this) tokenPair →
  _tokenTimestampMs this + 1000 * (expires_in tokenPair - 30) < now r →
  refreshed r = Normal answer →
  _checkTokenExpiration r this
  = let stored := set_tokenTimestampMs (now_refreshed r) (set_tokenPair answer this) in
    let sent :=
      [ Print "Trying to refresh the token";
        refresh_request this (refresh_token tokenPair) ] in
    match prop answer "access_token" with
    | Throw e => (stored, sent, Throw e)
    | Normal access_token =>
        match prop answer "expires_in" with
        | Throw e =>
            (stored, sent ++ [Print ("New access token: " +:+ prettyJSON access_token)],
             Throw e)
        | Normal expires_in' =>
            (stored,
             sent ++ [ Print ("New access token: " +:+ prettyJSON access_token);
                       Print ("Expires in: " +:+ ToString expires_in' +:+ "s") ],
             Normal tt)
        end
    end.
Proof.
  intros (_ & Hexpires & Hrefresh) Hdue Hnormal.
  rewrite _checkTokenExpiration_unfold, Hexpires. simpl.
  rewrite bool_decide_eq_true_2 by done. rewrite Hrefresh, Hnormal. simpl.
  destruct (prop answer "access_token"); [|done].
  by destruct (prop answer "expires_in").
Qed.


(** A token that a refresh has just obtained is not refreshed again before
    its last 30 s: a check within that time does nothing. A token that
    lives less than 30 s is due at once: every check from the time it was
    obtained sends a refresh request again, with its refresh token. *)
Theorem refresh_then_check r0 r this tokenPair answer tokenPair' :
  holds (_tokenPair this) tokenPair →
  _tokenTimestampMs this + 1000 * (expires_in tokenPair - 30) < now r0 →
  refreshed r0 = Normal answer →
  holds answer tokenPair' →
  let this' := (_checkTokenExpiration r0 this).1.1 in
  (now r ≤ now_refreshed r0 + 1000 * (expires_in tokenPair' - 30) →
     _checkTokenExpiration r this' = (this', [], Normal tt))
  ∧ (expires_in tokenPair' < 30 → now_refreshed r0 ≤ now r →
       requests is_refresh (_checkTokenExpiration r this').1.2
       = [refresh_request this' (refresh_token tokenPair')]).
Proof.
  intros Hholds Hdue Hanswer Hholds'.
  rewrite (_checkTokenExpiration_due_Normal r0 this tokenPair answer) by done.
  pose proof Hholds' as (Haccess & Hexpires & _). rewrite Haccess, Hexpires.
  simpl. split.
  - intros Hwithin.
    apply (_checkTokenExpiration_not_due r _ tokenPair'); [done|simpl; lia].
  - intros Hshort Hlater.
    set (this' := set_tokenTimestampMs (now_refreshed r0) (set_tokenPair answer this)).
    assert (holds (_tokenPair this') tokenPair') as Hstored by done.
    assert (_tokenTimestampMs this' + 1000 * (expires_in tokenPair' - 30) < now r)
      as Hdue' by (simpl; lia).
    destruct (refreshed r) as [answer'|e] eqn:Hanswer'.
    + rewrite (_checkTokenExpiration_due_Normal r this' tokenPair' answer') by done.
      simpl. destruct (prop answer' "access_token"); [|done].
      by destruct (prop answer' "expires_in").
    + by rewrite (_checkTokenExpiration_due_Throw r this' tokenPair' e).
Qed.

(** The token that the sign-in obtains is stored with the time of the
    answer, and the calls that follow use it without a refresh until its
    last 30 s. *)
Theorem sign_in_then_check this time0 answer tokenPair r :
  holds answer tokenPair →
  let this' := (_handleRequest_resume this time0 (Normal answer)).1.1 in
  now r ≤ time0 + 1000 * (expires_in tokenPair - 30) →
  _tokenPair this' = answer
  ∧ _tokenTimestampMs this' = time0
  ∧ _checkTokenExpiration r this' = (this', [], Normal tt).
Proof.
  intros Hholds. pose proof Hholds as (Haccess & Hexpires & _).
  unfold Api._handleRequest_resume. rewrite Haccess, Hexpires. simpl.
  intros Hwithin. split_and!; [done..|].
  apply (_checkTokenExpiration_not_due r _ tokenPair); [done|simpl; lia].
Qed.

End ApiToken.

(** ** The calls of the API: what every request carries *)
Section ApiCalls.

Import DigitalFactory Api.

Variable CLIENT_ID : option string.
Variable SCOPES : option string.
Variable prettyJSON : value → string.
Variable String_of : value → string.
Variable Number_of : value → option Z.
Variable basename : string → string.
Variable URLSearchParams_toString : URLSearchParams → string.

Local Abbreviation ToString := (ToString String_of).
Local Abbreviation invoke :=
  (invoke CLIENT_ID SCOPES prettyJSON String_of Number_of basename
     URLSearchParams_toString).
Local Abbreviation _checkTokenExpiration :=
  (_checkTokenExpiration CLIENT_ID SCOPES prettyJSON String_of Number_of).
Local Abbreviation httpPutDigitalFactory := (httpPutDigitalFactory prettyJSON String_of).
Local Abbreviation httpPostDigitalFactory := (httpPostDigitalFactory prettyJSON String_of).
Local Abbreviation uploadFileToProject :=
  (uploadFileToProject CLIENT_ID SCOPES prettyJSON String_of Number_of basename).

Ltac run_method :=
  unfold Api.httpGetDigitalFactory, Api.httpPutDigitalFactory,
    Api.httpPostDigitalFactory, _getRequestHeaders,
    mbind, M_bind, bind, mret, M_ret, ret, get_this, throw, lift, effect,
    modify, print;
  simpl.

(** What the check of the token sends and leaves: prints and at most one
    refresh request, without headers; and when it returns, the access token
    of the stored pair can be read. *)
Lemma _checkTokenExpiration_sends r this :
  let '(this', events, result) := _checkTokenExpiration r this in
  Forall (λ e, match e with
               | Fetch _ _ headers (Form _) => headers = ∅
               | Fetch _ _ _ _ => False
               | _ => True
               end) events
  ∧ (length (requests is_refresh events) ≤ 1)%nat
  ∧ (result = Normal tt → ∃ access_token,
       prop (_tokenPair this') "access_token" = Normal access_token).
Proof.
  rewrite _checkTokenExpiration_unfold.
  destruct (prop (_tokenPair this) "expires_in") as [expires_in|] eqn:Hexpires.
  2: { split_and!; [done|simpl; lia|done]. }
  destruct (greater_than _ _).
  2: { split_and!; [done|simpl; lia|]. intros _.
       by apply (prop_readable _ "expires_in" _ expires_in). }
  destruct (prop (_tokenPair this) "refresh_token") as [refresh_token|].
  2: { split_and!; [by repeat constructor|simpl; lia|done]. }
  destruct (refreshed r) as [answer|].
  2: { split_and!; [by repeat constructor|simpl; lia|done]. }
  simpl. destruct (prop answer "access_token") as [access_token|] eqn:Haccess.
  2: { split_and!; [by repeat constructor|simpl; lia|done]. }
  destruct (prop answer "expires_in").
  - split_and!; [by repeat constructor|simpl; lia|by eauto].
  - split_and!; [by repeat constructor|simpl; lia|done].
Qed.

Lemma requests_nil_elem_of kind events e :
  requests kind events = [] → e ∈ events → kind e = false.
Proof.
  unfold requests. intros Hnone Hin. destruct (kind e) eqn:Hkind; [|done].
  assert (e ∈ filter (λ e, kind e = true) events) as Hfiltered
    by by apply list_elem_of_filter.
  rewrite Hnone in Hfiltered. by apply elem_of_nil in Hfiltered.
Qed.

Lemma requests_app kind events events' :
  requests kind (events ++ events') = requests kind events ++ requests kind events'.
Proof. apply filter_app. Qed.

(** The check sends no request to the API and uploads nothing. *)
Lemma _checkTokenExpiration_no_request r this :
  let events := (_checkTokenExpiration r this).1.2 in
  requests is_api_request events = [] ∧ requests is_upload events = [].
Proof.
  pose proof (_checkTokenExpiration_sends r this) as Hsends.
  destruct (_checkTokenExpiration r this) as [[this' events] result]. simpl.
  destruct Hsends as (Hsends & _). split.
  - apply elem_of_nil_inv. intros e [Hkind Hin]%list_elem_of_filter.
    rewrite Forall_forall in Hsends. specialize (Hsends e Hin).
    by destruct e as [| |? ? ? []].
  - apply elem_of_nil_inv. intros e [Hkind Hin]%list_elem_of_filter.
    rewrite Forall_forall in Hsends. specialize (Hsends e Hin).
    by destruct e as [| |? ? ? []].
Qed.

(** A call other than the upload: the check of the token, then one request
    to the API with the authorization of the stored pair, then the [data] of
    the response. *)
Lemma invoke_unfold c :
  uploads c = false →
  ∃ path method (headers : string → gmap string string) payload,
    (∀ authorization, headers authorization !! "Authorization" = Some authorization)
    ∧ (∀ authorization,
         is_api_request
           (Fetch (Str (API_ROOT_URL +:+ path)) method (headers authorization) payload)
         = true)
    ∧ ∀ this,
        invoke c this
        = let '(this1, events1, checked) := _checkTokenExpiration (refresh_of c) this in
          match checked with
          | Throw e => (this1, events1, Throw e)
          | Normal _ =>
              match prop (_tokenPair this1) "access_token" with
              | Throw e => (this1, events1, Throw e)
              | Normal access_token =>
                  (this1,
                   events1
                   ++ [Fetch (Str (API_ROOT_URL +:+ path)) method
                         (headers ("Bearer " +:+ ToString access_token)) payload],
                   match answer_of c with
                   | Normal response => prop response "data"
                   | Throw e => Throw e
                   end)
              end
          end.
Proof.
  intros Hcall.
  assert (∀ authorization (additional : gmap string string),
            ({[ "Authorization" := authorization ]} ∪ additional
             ∪ {[ "Content-Type" := "application/json" ]} : gmap string string)
            !! "Authorization" = Some authorization) as Hunion.
  { intros. apply lookup_union_Some_l, lookup_union_Some_l, lookup_singleton_eq. }
  destruct c as [name r answer| |projectId comment r answer|jobId clusterId r answer
                |r answer|r answer|r answer]; [|done|..].
  - exists "/cura/v1/projects", "PUT",
      (λ authorization, {[ "Authorization" := authorization ]} ∪ ∅
                        ∪ {[ "Content-Type" := "application/json" ]}),
      (Text (prettyJSON (Obj [("data", Obj [("display_name", Str name)])]))).
    split_and!; [by intros; apply Hunion|done|]. intros this.
    unfold Api.invoke, Api.createProject. run_method.
    destruct (_checkTokenExpiration r this) as [[this1 events1] [[]|e]]; [|done].
    simpl. destruct (prop (_tokenPair this1) "access_token"); simpl;
      [|by rewrite ?app_nil_r].
    destruct answer as [response|]; simpl; [|done].
    rewrite ?app_nil_r. by destruct (prop response "data").
  - exists ("/cura/v1/projects/" +:+ projectId +:+ "/comments"), "PUT",
      (λ authorization, {[ "Authorization" := authorization ]} ∪ ∅
                        ∪ {[ "Content-Type" := "application/json" ]}),
      (Text (prettyJSON (Obj [("data", Obj [("body", Str comment)])]))).
    split_and!; [by intros; apply Hunion|done|]. intros this.
    unfold Api.invoke, Api.addCommentToProject. run_method.
    destruct (_checkTokenExpiration r this) as [[this1 events1] [[]|e]]; [|done].
    simpl. destruct (prop (_tokenPair this1) "access_token"); simpl;
      [|by rewrite ?app_nil_r].
    destruct answer as [response|]; simpl; [|done].
    rewrite ?app_nil_r. by destruct (prop response "data").
  - exists ("/connect/v1/clusters/" +:+ clusterId +:+ "/print/" +:+ jobId), "POST",
      (λ authorization, {[ "Authorization" := authorization ]} ∪ ∅
                        ∪ {[ "Content-Type" := "application/json" ]}),
      (Text (prettyJSON (Obj [("data", Obj [])]))).
    split_and!; [by intros; apply Hunion|done|]. intros this.
    unfold Api.invoke, Api.submitPrintJob. run_method.
    destruct (_checkTokenExpiration r this) as [[this1 events1] [[]|e]]; [|done].
    simpl. destruct (prop (_tokenPair this1) "access_token"); simpl;
      [|by rewrite ?app_nil_r].
    destruct answer as [response|]; simpl; [|done].
    rewrite ?app_nil_r. by destruct (prop response "data").
  - exists ("/connect/v1/print_jobs?"
            +:+ URLSearchParams_toString [("limit", "20"); ("status", "in_progress")]),
      "GET", (λ authorization, {[ "Authorization" := authorization ]}), NoBody.
    split_and!; [by intros; apply lookup_singleton_eq|done|]. intros this.
    unfold Api.invoke, Api.getRunningPrintJobs. run_method.
    destruct (_checkTokenExpiration r this) as [[this1 events1] [[]|e]]; [|done].
    simpl. destruct (prop (_tokenPair this1) "access_token"); simpl;
      [|by rewrite ?app_nil_r].
    destruct answer as [response|]; simpl; [|done].
    rewrite ?app_nil_r. by destruct (prop response "data").
  - exists "/connect/v1/clusters", "GET",
      (λ authorization, {[ "Authorization" := authorization ]}), NoBody.
    split_and!; [by intros; apply lookup_singleton_eq|done|]. intros this.
    unfold Api.invoke, Api.getClusters. run_method.
    destruct (_checkTokenExpiration r this) as [[this1 events1] [[]|e]]; [|done].
    simpl. destruct (prop (_tokenPair this1) "access_token"); simpl;
      [|by rewrite ?app_nil_r].
    destruct answer as [response|]; simpl; [|done].
    rewrite ?app_nil_r. by destruct (prop response "data").
  - exists ("/cura/v1/projects?"
            +:+ URLSearchParams_toString
                  [("limit", "24"); ("page", "1"); ("search", "demo"); ("shared", "false")]),
      "GET", (λ authorization, {[ "Authorization" := authorization ]}), NoBody.
    split_and!; [by intros; apply lookup_singleton_eq|done|]. intros this.
    unfold Api.invoke, Api.searchProjects. run_method.
    destruct (_checkTokenExpiration r this) as [[this1 events1] [[]|e]]; [|done].
    simpl. destruct (prop (_tokenPair this1) "access_token"); simpl;
      [|by rewrite ?app_nil_r].
    destruct answer as [response|]; simpl; [|done].
    rewrite ?app_nil_r. by destruct (prop response "data").
Qed.

(** The upload of a file, unfolded: the file is read, the token checked,
    the upload declared to the API, and the bytes sent to the URL of the
    answer. *)
Lemma uploadFileToProject_unfold libraryProjectId filePath file r answer uploaded this :
  uploadFileToProject libraryProjectId filePath file r answer uploaded this
  = match file with
    | Throw e => (this, [ReadFileSync filePath], Throw e)
    | Normal fileContents =>
        let '(this1, events1, checked) := _checkTokenExpiration r this in
        match checked with
        | Throw e => (this1, ReadFileSync filePath :: events1, Throw e)
        | Normal _ =>
            match prop (_tokenPair this1) "access_token" with
            | Throw e => (this1, ReadFileSync filePath :: events1, Throw e)
            | Normal access_token =>
                let declared :=
                  Fetch (Str (API_ROOT_URL +:+ "/cura/v1/jobs/upload")) "PUT"
                    ({[ "Authorization" := "Bearer " +:+ ToString access_token ]} ∪ ∅
                     ∪ {[ "Content-Type" := "application/json" ]})
                    (Text (prettyJSON
                       (Obj [("data",
                              Obj [ ("job_name", Str (basename filePath));
                                    ("content_type", Str "application/x-ufp");
                                    ("file_size", Num (Z.of_nat (length fileContents)));
                                    ("library_project_id", Str libraryProjectId) ])]))) in
                match answer with
                | Throw e =>
                    (this1, ReadFileSync filePath :: events1 ++ [declared], Throw e)
                | Normal response =>
                    match prop response "data" with
                    | Throw e =>
                        (this1, ReadFileSync filePath :: events1 ++ [declared], Throw e)
                    | Normal data =>
                        match prop data "upload_url" with
                        | Throw e =>
                            (this1, ReadFileSync filePath :: events1 ++ [declared],
                             Throw e)
                        | Normal uploadUrl =>
                            (this1,
                             ReadFileSync filePath :: events1
                             ++ [ declared;
                                  Print ("upload url: " +:+ ToString uploadUrl);
                                  Fetch uploadUrl "PUT"
                                    {[ "Content-Type" := "application/x-ufp" ]}
                                    (Bytes fileContents) ],
                             match uploaded with
                             | Normal _ => Normal data
                             | Throw e => Throw e
                             end)
                        end
                    end
                end
            end
        end
    end.
Proof.
  unfold Api.uploadFileToProject. run_method.
  destruct file as [fileContents|]; [|done]. simpl.
  destruct (_checkTokenExpiration r this) as [[this1 events1] [[]|e]]; [|done].
  simpl. destruct (prop (_tokenPair this1) "access_token"); simpl;
    [|by rewrite ?app_nil_r].
  destruct answer as [response|]; simpl; [|done].
  destruct (prop response "data") as [data|]; simpl; [|done].
  destruct (prop data "upload_url") as [uploadUrl|]; simpl; [|done].
  by destruct uploaded as [[]|].
Qed.

Lemma _checkTokenExpiration_Null r this :
  _tokenPair this = Null →
  ∃ e, _checkTokenExpiration r this = (this, [], Throw e).
Proof. intros Hnull. rewrite _checkTokenExpiration_unfold, Hnull. by eexists. Qed.

(** No call reaches the network without a token: on an object that holds no
    token pair every call throws before it sends anything. *)
Theorem invoke_without_token c this :
  _tokenPair this = Null →
  let '(this', events, result) := invoke c this in
  this' = this ∧ requests is_request events = [] ∧ ∃ e, result = Throw e.
Proof.
  intros Hnull. destruct (_checkTokenExpiration_Null (refresh_of c) this Hnull)
    as [e Hcheck].
  destruct (uploads c) eqn:Hcall.
  - destruct c; try done. simpl in Hcheck. unfold Api.invoke.
    rewrite uploadFileToProject_unfold. destruct file; [|by eauto].
    rewrite Hcheck. by eauto.
  - destruct (invoke_unfold c Hcall) as (path & method & headers & payload & _ & _ & ->).
    rewrite Hcheck. by eauto.
Qed.

(** A call whose token is due does not look at what the refresh comes to
    beyond a thrown error. When the refresh request throws, the call throws
    without a request to the API and leaves the object as it was. Of the
    calls other than the upload: when the refresh is answered with [null],
    the call throws as well, but only after it has stored the [null] and
    the time; when it is answered with anything else, as with the error
    object of a refresh that is refused, the answer is stored as the token
    pair and the call goes on: it sends its request to the API with the
    [access_token] of that answer, which is [undefined] when it has
    none. *)
Theorem invoke_refresh_fails c this tokenPair :
  holds (_tokenPair this) tokenPair →
  _tokenTimestampMs this + 1000 * (expires_in tokenPair - 30) < now (refresh_of c) →
  let '(this', events, result) := invoke c this in
  match refreshed (refresh_of c) with
  | Throw e =>
      this' = this
      ∧ requests is_api_request events = []
      ∧ requests is_upload events = []
      ∧ (length (requests is_refresh events) ≤ 1)%nat
      ∧ ∃ e', result = Throw e'
  | Normal answer =>
      uploads c = false →
      this' = set_tokenTimestampMs (now_refreshed (refresh_of c))
                (set_tokenPair answer this)
      ∧ match prop answer "access_token" with
        | Throw e => requests is_api_request events = [] ∧ result = Throw e
        | Normal access_token =>
            ∃ target method headers payload,
              requests is_api_request events = [Fetch target method headers payload]
              ∧ headers !! "Authorization" = Some ("Bearer " +:+ ToString access_token)
              ∧ (∀ properties,
                   answer = Obj properties →
                   Forall (λ p, p.1 ≠ "access_token") properties →
                   headers !! "Authorization" = Some "Bearer undefined")
        end
  end.
Proof.
  intros Hholds Hdue.
  pose proof (_checkTokenExpiration_no_request (refresh_of c) this) as Hnone.
  pose proof (_checkTokenExpiration_sends (refresh_of c) this) as Hsends.
  destruct (refreshed (refresh_of c)) as [answer|e] eqn:Hanswer.
  - destruct (uploads c) eqn:Hcall.
    { by destruct (invoke c this) as [[this' events] result]. }
    destruct (invoke_unfold c Hcall)
      as (path & method & headers & payload & Hauthorization & Hkind & ->).
    rewrite (_checkTokenExpiration_due_Normal _ _ _ _ _ _ _ tokenPair answer)
      in Hnone, Hsends |- * by done.
    simpl in *.
    destruct (prop answer "access_token") as [access_token|] eqn:Haccess.
    2: { intros _. split; [done|]. split; [|done]. by destruct Hnone. }
    destruct (prop_readable _ _ "expires_in" _ Haccess) as [expires_in' Hexpires].
    rewrite Hexpires in Hnone, Hsends |- *. simpl in *. rewrite Haccess.
    intros _. split; [done|]. eexists _, _, _, _. split_and!.
    + specialize (Hkind ""). by destruct payload.
    + apply Hauthorization.
    + intros properties -> Hwithout. rewrite Hauthorization. simpl in Haccess.
      assert (filter (λ p : string * value, p.1 = "access_token") properties = [])
        as Hfiltered.
      { apply elem_of_nil_inv. intros p [Hkey Hin]%list_elem_of_filter.
        rewrite Forall_forall in Hwithout. by apply Hwithout in Hin. }
      rewrite Hfiltered in Haccess. by injection Haccess as <-.
  - destruct (uploads c) eqn:Hcall.
    + destruct c; try done. simpl in *. unfold Api.invoke.
      rewrite uploadFileToProject_unfold. destruct file; [|by eauto 10].
      simpl in Hanswer, Hdue.
      rewrite (_checkTokenExpiration_due_Throw _ _ _ _ _ _ _ tokenPair e) by done.
      split_and!; [done..|simpl; lia|by eauto].
    + destruct (invoke_unfold c Hcall) as (path & method & headers & payload & _ & _ & ->).
      rewrite (_checkTokenExpiration_due_Throw _ _ _ _ _ _ _ tokenPair e) by done.
      split_and!; [done..|simpl; lia|by eauto].
Qed.

(** What a request carries. A request to the API bears the access token
    that the object holds after the call, which is the new one if the call
    refreshed the token, and goes to the root of the API. The refresh
    request has no headers. The upload of the file has a content type and
    no authorization: the token is not sent to the upload URL. *)
Theorem invoke_requests_authorized c this :
  let '(this', events, _) := invoke c this in
  Forall (λ e,
    match e with
    | Fetch target method headers (Form _) => headers = ∅
    | Fetch target method headers (Bytes _) =>
        headers !! "Authorization" = None
        ∧ headers !! "Content-Type" = Some "application/x-ufp"
    | Fetch target method headers _ =>
        (∃ access_token,
           prop (_tokenPair this') "access_token" = Normal access_token
           ∧ headers !! "Authorization" = Some ("Bearer " +:+ ToString access_token))
        ∧ ∃ path, target = Str (API_ROOT_URL +:+ path)
    | _ => True
    end) events.
Proof.
  assert (∀ this1 events1,
    Forall (λ e, match e with
                 | Fetch _ _ headers (Form _) => headers = ∅
                 | Fetch _ _ _ _ => False
                 | _ => True
                 end) events1 →
    Forall (λ e,
      match e with
      | Fetch target method headers (Form _) => headers = ∅
      | Fetch target method headers (Bytes _) =>
          headers !! "Authorization" = None
          ∧ headers !! "Content-Type" = Some "application/x-ufp"
      | Fetch target method headers _ =>
          (∃ access_token,
             prop (_tokenPair this1) "access_token" = Normal access_token
             ∧ headers !! "Authorization" = Some ("Bearer " +:+ ToString access_token))
          ∧ ∃ path, target = Str (API_ROOT_URL +:+ path)
      | _ => True
      end) events1) as Hchecked.
  { intros this1 events1 Hall. eapply Forall_impl; [exact Hall|].
    by intros [| |? ? ? []]. }
  pose proof (_checkTokenExpiration_sends (refresh_of c) this) as Hsends.
  destruct (uploads c) eqn:Hcall.
  - destruct c; try done. simpl in Hsends. unfold Api.invoke.
    rewrite uploadFileToProject_unfold.
    destruct file as [fileContents|]; [|by repeat constructor].
    destruct (_checkTokenExpiration r this) as [[this1 events1] [[]|e]];
      destruct Hsends as (Hsends & _).
    2: { constructor; [done|]. by apply Hchecked. }
    destruct (prop (_tokenPair this1) "access_token") as [access_token|] eqn:Haccess.
    2: { constructor; [done|]. by apply Hchecked. }
    assert (∀ authorization : string,
              ({[ "Authorization" := authorization ]} ∪ ∅
               ∪ {[ "Content-Type" := "application/json" ]} : gmap string string)
              !! "Authorization" = Some authorization) as Hunion.
    { intros. apply lookup_union_Some_l, lookup_union_Some_l, lookup_singleton_eq. }
    simpl.
    destruct answer as [response|]; simpl.
    2: { constructor; [done|]. apply Forall_app. split; [by apply Hchecked|].
         repeat constructor; by eauto. }
    destruct (prop response "data") as [data|].
    2: { constructor; [done|]. apply Forall_app. split; [by apply Hchecked|].
         repeat constructor; by eauto. }
    destruct (prop data "upload_url") as [uploadUrl|].
    2: { constructor; [done|]. apply Forall_app. split; [by apply Hchecked|].
         repeat constructor; by eauto. }
    constructor; [done|]. apply Forall_app. split; [by apply Hchecked|].
    repeat constructor; by eauto.
  - destruct (invoke_unfold c Hcall)
      as (path & method & headers & payload & Hauthorization & Hkind & ->).
    destruct (_checkTokenExpiration (refresh_of c) this) as [[this1 events1] [[]|e]];
      destruct Hsends as (Hsends & _); [|by apply Hchecked].
    destruct (prop (_tokenPair this1) "access_token") as [access_token|] eqn:Haccess;
      [|by apply Hchecked].
    apply Forall_app. split; [by apply Hchecked|].
    constructor; [|done]. specialize (Hkind ("Bearer " +:+ ToString access_token)).
    destruct payload; try done; by eauto.
Qed.

(** The upload of a file sends the bytes that were read from the file, to
    the upload URL of the response, as the last thing it does, after a
    request to the API that declares their number as the file size, the
    base name of the path as the job name and the same content type. The
    response to the upload is not looked at: the call returns the data of
    the first response unless the upload throws. *)
Theorem uploadFileToProject_declares_what_it_sends
  libraryProjectId filePath file r answer uploaded this target method headers data :
  let run := uploadFileToProject libraryProjectId filePath file r answer uploaded this in
  Fetch target method headers (Bytes data) ∈ run.1.2 →
  file = Normal data ∧ method = "PUT"
  ∧ (∃ response d,
       answer = Normal response
       ∧ prop response "data" = Normal d
       ∧ prop d "upload_url" = Normal target
       ∧ run.2 = match uploaded with
                 | Normal _ => Normal d
                 | Throw e => Throw e
                 end)
  ∧ ∃ authorized before between,
      run.1.2
      = before
        ++ Fetch (Str (API_ROOT_URL +:+ "/cura/v1/jobs/upload")) "PUT" authorized
             (Text (prettyJSON
                      (Obj [("data",
                             Obj [ ("job_name", Str (basename filePath));
                                   ("content_type", Str "application/x-ufp");
                                   ("file_size", Num (Z.of_nat (length data)));
                                   ("library_project_id", Str libraryProjectId) ])])))
           :: between ++ [Fetch target method headers (Bytes data)].
Proof.
  intros run. unfold run. rewrite uploadFileToProject_unfold.
  pose proof (_checkTokenExpiration_no_request r this) as [_ Hnone].
  assert (∀ events1,
            requests is_upload events1 = [] →
            Fetch target method headers (Bytes data) ∉ events1) as Hchecked.
  { intros events1 Hempty Hin. by apply (requests_nil_elem_of _ _ _ Hempty) in Hin. }
  destruct file as [fileContents|].
  2: { simpl. rewrite elem_of_cons, elem_of_nil. by intros [|]. }
  destruct (_checkTokenExpiration r this) as [[this1 events1] [[]|e]]; simpl in Hnone.
  2: { simpl. rewrite elem_of_cons. intros [|Hin]; [done|]. by apply Hchecked in Hin. }
  destruct (prop (_tokenPair this1) "access_token") as [access_token|].
  2: { simpl. rewrite elem_of_cons. intros [|Hin]; [done|]. by apply Hchecked in Hin. }
  simpl. destruct answer as [response|].
  2: { simpl. rewrite elem_of_cons, elem_of_app, elem_of_cons, elem_of_nil.
       intros [|[Hin|[|]]]; try done. by apply Hchecked in Hin. }
  destruct (prop response "data") as [d|] eqn:Hdata.
  2: { simpl. rewrite elem_of_cons, elem_of_app, elem_of_cons, elem_of_nil.
       intros [|[Hin|[|]]]; try done. by apply Hchecked in Hin. }
  destruct (prop d "upload_url") as [uploadUrl|] eqn:Hurl.
  2: { simpl. rewrite elem_of_cons, elem_of_app, elem_of_cons, elem_of_nil.
       intros [|[Hin|[|]]]; try done. by apply Hchecked in Hin. }
  simpl. rewrite elem_of_cons, elem_of_app, !elem_of_cons, elem_of_nil.
  intros [|[Hin|[|[|[Hsent|]]]]]; try done; [by apply Hchecked in Hin|].
  injection Hsent as -> -> -> ->.
  split_and!; [done|done|by eexists _, _|].
  by eexists _, (ReadFileSync filePath :: events1), [_].
Qed.

(** The headers of a PUT or POST to the API: the authorization is that of
    the token, whatever the additional headers say; the content type is
    JSON unless an additional header gives another; every other header is
    the additional one. *)
Theorem http_headers url body additional_headers answer this access_token :
  prop (_tokenPair this) "access_token" = Normal access_token →
  ∃ headers,
    (httpPutDigitalFactory url body additional_headers answer this).1.2
      = [Fetch (Str url) "PUT" headers (Text (prettyJSON body))]
    ∧ (httpPostDigitalFactory url body additional_headers answer this).1.2
      = [Fetch (Str url) "POST" headers (Text (prettyJSON body))]
    ∧ headers !! "Authorization" = Some ("Bearer " +:+ ToString access_token)
    ∧ headers !! "Content-Type"
      = Some (default "application/json" (additional_headers !! "Content-Type"))
    ∧ ∀ name, name ≠ "Authorization" → name ≠ "Content-Type" →
        headers !! name = additional_headers !! name.
Proof.
  intros Haccess. run_method. rewrite Haccess. simpl.
  eexists. split_and!; [done|done|..].
  - apply lookup_union_Some_l, lookup_union_Some_l, lookup_singleton_eq.
  - rewrite !lookup_union, lookup_singleton_eq, lookup_singleton_ne by done.
    by destruct (additional_headers !! "Content-Type").
  - intros name Hauth Htype. rewrite !lookup_union, !lookup_singleton_ne by done.
    by destruct (additional_headers !! name).
Qed.

Lemma prop_without properties key :
  Forall (λ p, p.1 ≠ key) properties → prop (Obj properties) key = Normal Undefined.
Proof.
  intros Hnone. simpl.
  assert (filter (λ p : string * value, p.1 = key) properties = []) as ->; [|done].
  apply elem_of_nil_inv. intros p [Hkey Hin]%list_elem_of_filter.
  rewrite Forall_forall in Hnone. by apply Hnone in Hin.
Qed.

(** A call other than the upload returns the [data] of the response, as it
    is: a response without [data], as an error response is, gives
    [undefined] and no error; a response that is [null] gives a
    [TypeError]; a request that throws gives its error. The object is as
    the check of the token left it. *)
Theorem invoke_returns_data c this this1 events1 :
  uploads c = false →
  _checkTokenExpiration (refresh_of c) this = (this1, events1, Normal tt) →
  (invoke c this).1.1 = this1
  ∧ (invoke c this).2
    = match answer_of c with
      | Normal response => prop response "data"
      | Throw e => Throw e
      end
  ∧ (∀ properties,
       answer_of c = Normal (Obj properties) →
       Forall (λ p, p.1 ≠ "data") properties →
       (invoke c this).2 = Normal Undefined)
  ∧ (answer_of c = Normal Null → ∃ e, (invoke c this).2 = Throw e).
Proof.
  intros Hcall Hcheck.
  pose proof (_checkTokenExpiration_sends (refresh_of c) this) as Hsends.
  rewrite Hcheck in Hsends. destruct Hsends as (_ & _ & Hreadable).
  destruct (Hreadable eq_refl) as [access_token Haccess].
  destruct (invoke_unfold c Hcall) as (path & method & headers & payload & _ & _ & ->).
  rewrite Hcheck, Haccess. simpl. split_and!; [done..| |].
  - intros properties -> Hnone. by apply prop_without.
  - intros ->. by eexists.
Qed.

End ApiCalls.

(** ** The interactive demo: what the calls are given *)
Section DemoFlow.

Import Demo.

Variable json : Type.
Variable prettyJSON : json → string.

Local Abbreviation main := (main json prettyJSON).

Lemma elem_of_calls c events : Call c ∈ events ↔ c ∈ calls events.
Proof.
  unfold calls. rewrite list_elem_of_omap. split.
  - intros Hin. by exists (Call c).
  - intros (e & Hin & Hcall). by destruct e; simplify_eq.
Qed.

(** The identifiers flow from one response to the next call: the comment
    and the file go to the project that [createProject] returned, the print
    job is the one that [uploadFileToProject] returned, and the file and the
    cluster are those of the environment. *)
Theorem demo_ids_flow (w : World json) :
  let events := (main w).1 in
  (∀ name, Call (createProject name) ∈ events →
     name = "Demo project" ∧ ∃ u, signIn_result _ w = Normal u)
  ∧ (∀ projectId comment, Call (addCommentToProject projectId comment) ∈ events →
       createProject_result _ w = Normal projectId ∧ comment = "Demo comment")
  ∧ (∀ projectId filePath, Call (uploadFileToProject projectId filePath) ∈ events →
       createProject_result _ w = Normal projectId
       ∧ filePath = UFP_PATH _ w ∧ configured w = true)
  ∧ (∀ jobId clusterId, Call (submitPrintJob jobId clusterId) ∈ events →
       uploadFileToProject_result _ w = Normal jobId
       ∧ clusterId = CLUSTER_ID _ w ∧ configured w = true).
Proof.
  destruct w as [cluster path signedIn created commented uploaded submitted
                   jobs projects].
  unfold configured. cbn [CLUSTER_ID UFP_PATH].
  unfold Demo.main, print, mbind, Run.run_bind, Run.bind, Run.await, Run.emit.
  cbn [CLUSTER_ID UFP_PATH signIn_result createProject_result
         addCommentToProject_result uploadFileToProject_result
         submitPrintJob_result getRunningPrintJobs_result searchProjects_result].
  destruct (bool_decide (cluster ≠ _) && bool_decide (path ≠ _));
    destruct signedIn as [[]|], created, commented as [[]|], uploaded, submitted,
      jobs as [[|? ?]|], projects as [[|? ?]|];
    cbn; (split_and!; intros;
          match goal with
          | H : _ ∈ _ |- _ =>
              apply elem_of_calls in H; cbn in H;
              rewrite ?elem_of_cons, elem_of_nil in H
          end;
          intuition (simplify_eq; eauto)).
Qed.

End DemoFlow.

(** ** The further properties on sample inputs *)

Example getPreviousClusterStatus_listing_order_witness :
  (Monitor.getPreviousClusterStatus Monitor.compareCharCodes Sample.JSON_parse Sample.mkdir
     Sample.two_snapshots "logs").2
  = (Monitor.getPreviousClusterStatus Monitor.compareCharCodes Sample.JSON_parse Sample.mkdir
       SampleApi.listed_otherwise "logs").2.
Proof.
  apply (getPreviousClusterStatus_listing_order Monitor.compareCharCodes
           Sample.JSON_parse Sample.mkdir compareCharCodes_total compareCharCodes_trans
           compareCharCodes_antisym Sample.two_snapshots SampleApi.listed_otherwise
           "logs" Sample.status_names
           [ "readme.txt"; "2021-06-01T11-00-00.000Z-clusters.json";
             "2021-06-01T10-00-00.000Z-clusters.json" ]).
  - reflexivity.
  - reflexivity.
  - reflexivity.
  - unfold Sample.status_names.
    etrans; [apply Permutation_swap|]. apply Permutation_skip, Permutation_swap.
Defined.

Example earlier_loop_stops_at_error_witness :
  let run :=
    MonitorEarlier.loop Sample.toISOString Sample.prettyJSON_clusters
      Sample.prettyJSON_comparison "logs" 60000 false Monitor.Null
      [Sample.tick_ok; Sample.tick_error; Sample.tick_ok] in
  run.2 = Monitor.Exited 1
  ∧ Monitor.count Monitor.is_fetch run.1 = 2%nat
  ∧ Monitor.count MonitorRun.is_consoleError run.1 = 1%nat
  ∧ last run.1 = Some (Monitor.ProcessExit 1).
Proof.
  apply (earlier_loop_stops_at_error Sample.toISOString Sample.prettyJSON_clusters
           Sample.prettyJSON_comparison "logs" 60000 Monitor.Null
           [Sample.tick_ok] Sample.tick_error [Sample.tick_ok] "FetchError: ETIMEDOUT").
  - repeat constructor.
  - reflexivity.
Defined.

Example token_request_matches_sign_in_witness :
  ∃ body,
    head (DigitalFactory.serve None None Sample.new_URL Sample.prettyJSON
            Sample.signing_in 0
            [ DigitalFactory.Request Sample.callback;
              DigitalFactory.Answer (Normal Sample.tokens) ]).2
    = Some (DigitalFactory.Fetch (Some "https://account.ultimaker.com/token") "POST" body)
    ∧ DigitalFactory.searchParams_get body "redirect_uri"
      = Some "http://localhost:32118/callback"
    ∧ DigitalFactory.searchParams_get body "grant_type" = Some "authorization_code".
Proof.
  eexists. split; [reflexivity|].
  destruct (token_request_matches_sign_in None None Sample.sha512
              Sample.toString_base64 Sample.new_URL Sample.URLSearchParams_toString
              Sample.prettyJSON DigitalFactory.new [] [] 0%nat
              [DigitalFactory.Request Sample.callback;
               DigitalFactory.Answer (Normal Sample.tokens)]
              (Some "https://account.ultimaker.com/token") "POST"
              [ ("client_id", "undefined");
                ("redirect_uri", "http://localhost:32118/callback");
                ("grant_type", "authorization_code"); ("scope", "undefined");
                ("code", "abc"); ("code_verifier", "c2VjcmV0") ])
    as (_ & _ & Hgrant & Hredirect & _).
  - vm_compute. left.
  - split; [exact Hredirect|exact Hgrant].
Defined.

Example sign_in_binds_state_witness :
  ∃ req_url searchParams code,
    DigitalFactory.url Sample.callback = Some req_url
    ∧ Sample.new_URL ("http://localhost:" +:+ pretty DigitalFactory.CALLBACK_SERVER_PORT
                      +:+ req_url) = Normal searchParams
    ∧ DigitalFactory.searchParams_get searchParams "state"
      = Some (DigitalFactory._generateState Sample.toString_base64 [])
    ∧ DigitalFactory.searchParams_get searchParams "code" = Some code
    ∧ ∃ target method body,
        DigitalFactory._requestAccessToken None None Sample.signing_in "abc" "c2VjcmV0"
        = DigitalFactory.Fetch target method body
        ∧ DigitalFactory.searchParams_get body "code" = Some code.
Proof.
  apply (sign_in_binds_state None None Sample.sha512 Sample.toString_base64
           Sample.new_URL Sample.URLSearchParams_toString
           DigitalFactory.new [] [] Sample.callback).
  reflexivity.
Defined.

Example refresh_then_check_witness :
  let this' :=
    (Api._checkTokenExpiration None None SampleApi.prettyJSON SampleApi.String_of
       SampleApi.Number_of SampleApi.after_an_hour SampleApi.signed_in).1.1 in
  Api._checkTokenExpiration None None SampleApi.prettyJSON SampleApi.String_of
    SampleApi.Number_of
    {| Api.now := 7000000; Api.refreshed := Normal Api.Null;
       Api.now_refreshed := 7000000 |} this'
  = (this', [], Normal tt).
Proof.
  intros this'.
  destruct (refresh_then_check None None SampleApi.prettyJSON SampleApi.String_of
              SampleApi.Number_of SampleApi.after_an_hour
              {| Api.now := 7000000; Api.refreshed := Normal Api.Null;
                 Api.now_refreshed := 7000000 |}
              SampleApi.signed_in SampleApi.tokens
              (Api.of_TokenResponse SampleApi.tokens_after) SampleApi.tokens_after)
    as [Hwithin _]; [by split_and!|by vm_compute|reflexivity|by split_and!|].
  apply Hwithin. by vm_compute.
Defined.

Example sign_in_then_check_witness :
  Api._tokenTimestampMs SampleApi.signed_in = 0
  ∧ Api._checkTokenExpiration None None SampleApi.prettyJSON SampleApi.String_of
      SampleApi.Number_of SampleApi.after_ten_minutes SampleApi.signed_in
    = (SampleApi.signed_in, [], Normal tt).
Proof.
  destruct (sign_in_then_check None None SampleApi.prettyJSON SampleApi.String_of
              SampleApi.Number_of (Api.of_signIn Sample.signing_in 0) 0
              (Api.of_TokenResponse SampleApi.tokens) SampleApi.tokens
              SampleApi.after_ten_minutes)
    as (_ & Hstamp & Hcheck); [by split_and!|by vm_compute|].
  split; [exact Hstamp|exact Hcheck].
Defined.

Example invoke_without_token_witness :
  let '(this', events, result) :=
    Api.invoke None None SampleApi.prettyJSON SampleApi.String_of SampleApi.Number_of
      SampleApi.basename Sample.URLSearchParams_toString
      (Api.GetClusters SampleApi.after_ten_minutes (Normal SampleApi.upload_response))
      Api.new in
  this' = Api.new ∧ Api.requests Api.is_request events = [] ∧ ∃ e, result = Throw e.
Proof.
  apply (invoke_without_token None None SampleApi.prettyJSON SampleApi.String_of
           SampleApi.Number_of SampleApi.basename Sample.URLSearchParams_toString
           (Api.GetClusters SampleApi.after_ten_minutes (Normal SampleApi.upload_response))
           Api.new).
  reflexivity.
Defined.

(** A refresh token that the identity provider refuses: the print job is
    submitted all the same, without an access token. *)
Example invoke_refresh_fails_witness :
  let run :=
    Api.invoke None None SampleApi.prettyJSON SampleApi.String_of SampleApi.Number_of
      SampleApi.basename Sample.URLSearchParams_toString
      (Api.SubmitPrintJob "job-1" "cluster-1" SampleApi.after_an_hour_refused
         (Normal SampleApi.error_response))
      SampleApi.signed_in in
  Api._tokenPair run.1.1 = SampleApi.invalid_grant
  ∧ ∃ target method headers payload,
      Api.requests Api.is_api_request run.1.2 = [Api.Fetch target method headers payload]
      ∧ headers !! "Authorization" = Some "Bearer undefined".
Proof.
  intros run.
  pose proof (invoke_refresh_fails None None SampleApi.prettyJSON SampleApi.String_of
                SampleApi.Number_of SampleApi.basename Sample.URLSearchParams_toString
                (Api.SubmitPrintJob "job-1" "cluster-1" SampleApi.after_an_hour_refused
                   (Normal SampleApi.error_response))
                SampleApi.signed_in SampleApi.tokens) as Hrefused.
  fold run in Hrefused. destruct run as [[this' events] result]. simpl in *.
  destruct Hrefused as [-> (target & method & headers & payload & Hsent & _ & Hnone)];
    [by split_and!|by vm_compute|reflexivity|].
  split; [reflexivity|]. exists target, method, headers, payload.
  split; [exact Hsent|]. apply (Hnone _ eq_refl). by repeat constructor.
Defined.

Example uploadFileToProject_declares_what_it_sends_witness :
  (Api.uploadFileToProject None None SampleApi.prettyJSON SampleApi.String_of
     SampleApi.Number_of SampleApi.basename "project-1" "benchy.ufp"
     (Normal [Byte.x50; Byte.x4b])
     SampleApi.after_ten_minutes (Normal SampleApi.upload_response) (Normal tt)
     SampleApi.signed_in).2
  = Normal (Api.Obj [ ("job_id", Api.Str "job-1");
                      ("upload_url", Api.Str "https://storage.example/job-1") ]).
Proof.
  destruct (uploadFileToProject_declares_what_it_sends None None SampleApi.prettyJSON
              SampleApi.String_of SampleApi.Number_of SampleApi.basename
              "project-1" "benchy.ufp"
              (Normal [Byte.x50; Byte.x4b]) SampleApi.after_ten_minutes
              (Normal SampleApi.upload_response) (Normal tt) SampleApi.signed_in
              (Api.Str "https://storage.example/job-1") "PUT"
              {[ "Content-Type" := "application/x-ufp" ]} [Byte.x50; Byte.x4b])
    as (_ & _ & (response & d & Hresponse & Hdata & _ & Hresult) & _).
  - vm_compute. do 3 apply list_elem_of_further. apply list_elem_of_here.
  - rewrite Hresult. injection Hresponse as <-. symmetry. exact Hdata.
Defined.

Example http_headers_witness :
  ∃ headers,
    (Api.httpPutDigitalFactory SampleApi.prettyJSON SampleApi.String_of
       "https://api.ultimaker.com/x"
       (Api.Str "body") {[ "Authorization" := "Basic me"; "X-Request" := "1" ]}
       (Normal Api.Null) SampleApi.signed_in).1.2
    = [Api.Fetch (Api.Str "https://api.ultimaker.com/x") "PUT" headers (Api.Text "body")]
    ∧ headers !! "Authorization" = Some "Bearer access-1"
    ∧ headers !! "Content-Type" = Some "application/json"
    ∧ headers !! "X-Request" = Some "1".
Proof.
  destruct (http_headers SampleApi.prettyJSON SampleApi.String_of
              "https://api.ultimaker.com/x"
              (Api.Str "body") {[ "Authorization" := "Basic me"; "X-Request" := "1" ]}
              (Normal Api.Null) SampleApi.signed_in (Api.Str "access-1"))
    as (headers & Hput & _ & Hauthorization & Htype & Hother); [reflexivity|].
  exists headers. split_and!.
  - exact Hput.
  - exact Hauthorization.
  - exact Htype.
  - by rewrite Hother.
Defined.

Example invoke_returns_data_witness :
  (Api.invoke None None SampleApi.prettyJSON SampleApi.String_of SampleApi.Number_of
     SampleApi.basename Sample.URLSearchParams_toString
     (Api.CreateProject "Demo project" SampleApi.after_ten_minutes
        (Normal SampleApi.error_response))
     SampleApi.signed_in).2
  = Normal Api.Undefined.
Proof.
  destruct (invoke_returns_data None None SampleApi.prettyJSON SampleApi.String_of
              SampleApi.Number_of SampleApi.basename Sample.URLSearchParams_toString
              (Api.CreateProject "Demo project" SampleApi.after_ten_minutes
                 (Normal SampleApi.error_response))
              SampleApi.signed_in SampleApi.signed_in [])
    as (_ & _ & Hundefined & _); [reflexivity|reflexivity|].
  apply (Hundefined [("errors", Api.Arr [Api.Obj [("code", Api.Str "forbidden")]])]).
  - reflexivity.
  - by repeat constructor.
Defined.

(** A comparison file that cannot be opened: the stream emits its error
    while the first fetch is awaited, and the process ends with code 1
    without having written a snapshot. *)
Example script_stream_error_sample :
  Monitor.script Sample.toISOString Monitor.compareCharCodes Sample.JSON_parse
    Sample.mkdir Sample.prettyJSON_clusters Sample.prettyJSON_comparison
    Sample.no_options SampleApi.read_only_logs
  = [ Monitor.ProcessOnSigint; Monitor.SignIn;
      Monitor.Print ["Sign in completed." +:+ LF];
      Monitor.CreateWriteStream "../cluster-monitoring-logs/cluster-monitoring.csv";
      Monitor.Print ["Retrieving clusters..."]; Monitor.GetClusters;
      Monitor.UncaughtException
        "Error: EACCES: permission denied, open 'cluster-monitoring.csv'" ].
Proof. reflexivity. Qed.

(** A token refresh that is answered with [null]: the call throws, the
    [null] and the time stored. *)
Example refresh_answered_null_sample :
  Api.invoke None None SampleApi.prettyJSON SampleApi.String_of SampleApi.Number_of
    SampleApi.basename Sample.URLSearchParams_toString
    (Api.GetClusters SampleApi.after_an_hour_null (Normal SampleApi.upload_response))
    SampleApi.signed_in
  = (Api.set_tokenTimestampMs 3600200 (Api.set_tokenPair Api.Null SampleApi.signed_in),
     [ Api.Print "Trying to refresh the token";
       Api.Fetch (Api.Str "https://account.ultimaker.com/token") "POST" ∅
         (Api.Form [ ("client_id", "undefined"); ("grant_type", "refresh_token");
                     ("refresh_token", "refresh-1"); ("scope", "undefined") ]) ],
     Throw "TypeError: Cannot read properties of null (reading 'access_token')").
Proof. reflexivity. Qed.
